(** * Data-contract validation: schema validator, contract loader and
      expectation loop

    A shallow embedding of [src/utils.py] ([load_data_contract],
    [validate_schema]), of the expectation-application loop of
    [scripts/validate_data.py] and of [add_schema_drift] of
    [scripts/simulate_bad_data.py], with the properties the specification
    states about them and further properties read off the code. *)

From Stdlib Require Import ZArith.
From stdpp Require Import gmap strings list fin_maps.

Set Warnings "-register-all".

(** ** Python values and exceptions *)

(** What [yaml.safe_load] and [json.load] build: scalars, lists and
    mappings.  A mapping keeps its keys in insertion order, as a Python
    [dict] does; keys are strings, the only keys contract and suite
    documents use.  Floats do not occur in them and are left out. *)
Inductive pyval : Type :=
  | PNone
  | PBool (b : bool)
  | PInt (z : Z)
  | PStr (s : string)
  | PList (l : list pyval)
  | PDict (items : list (string * pyval)).

(** An exception is identified by the name of its class. *)
Inductive exn : Type := Exn (class_name : string).

Definition AttributeError : exn := Exn "AttributeError".
Definition KeyError : exn := Exn "KeyError".
Definition TypeError : exn := Exn "TypeError".
Definition FileNotFoundError : exn := Exn "FileNotFoundError".

Inductive result (A : Type) : Type :=
  | Ok (a : A)
  | Raise (e : exn).
Arguments Ok {A} a.
Arguments Raise {A} e.

(** Python's [bool(v)]: the test an [if], a [not] or an [and] applies. *)
Definition truthy (v : pyval) : bool :=
  match v with
  | PNone => false
  | PBool b => b
  | PInt z => negb (z =? 0)%Z
  | PStr s => negb (String.eqb s "")
  | PList [] => false
  | PList (_ :: _) => true
  | PDict [] => false
  | PDict (_ :: _) => true
  end.

(** First binding of [k] in the items of a mapping. *)
Fixpoint lookup_key (k : string) (items : list (string * pyval)) : option pyval :=
  match items with
  | [] => None
  | (k', v) :: rest => if String.eqb k k' then Some v else lookup_key k rest
  end.

(** [d.get(k, default)]: only a mapping has the method. *)
Definition dict_get (d : pyval) (k : string) (default : pyval) : result pyval :=
  match d with
  | PDict items =>
      match lookup_key k items with
      | Some v => Ok v
      | None => Ok default
      end
  | _ => Raise AttributeError
  end.

(** [d.items()], in insertion order. *)
Definition dict_items (d : pyval) : result (list (string * pyval)) :=
  match d with
  | PDict items => Ok items
  | _ => Raise AttributeError
  end.

(** [d[k]] with a string key: [KeyError] when a mapping lacks the key,
    [TypeError] on a value that cannot be indexed by a string. *)
Definition subscript (d : pyval) (k : string) : result pyval :=
  match d with
  | PDict items =>
      match lookup_key k items with
      | Some v => Ok v
      | None => Raise KeyError
      end
  | _ => Raise TypeError
  end.

(** ** State and exceptions

    A computation runs on a state and returns a value or raises; either
    way the state it leaves behind is kept, as Python keeps the effects
    made before an exception. *)
Definition M (S A : Type) : Type := S → result A * S.

Global Instance M_ret {S} : MRet (M S) := λ A a st, (Ok a, st).

Global Instance M_bind {S} : MBind (M S) := λ A B f m st,
  match m st with
  | (Ok a, st') => f a st'
  | (Raise e, st') => (Raise e, st')
  end.

(** A pure step that may raise. *)
Definition lift {S A} (r : result A) : M S A := λ st, (r, st).

(** [for x in l: body(x)]; an exception leaves the loop. *)
Fixpoint for_each {S A} (l : list A) (body : A → M S unit) : M S unit :=
  match l with
  | [] => mret ()
  | x :: rest => body x ;; for_each rest body
  end.

(** ** The dataset *)

(** A cell of a data frame; [Null] is what [isnull] reports (NaN, None). *)
Inductive cell : Type :=
  | Null
  | Num (z : Z)
  | Text (s : string).

Definition isnull (c : cell) : bool :=
  match c with
  | Null => true
  | _ => false
  end.

(** A data frame maps each column label to its series of cells, one per
    row.  Labels are unique, as [pd.read_csv] makes them, so that
    [df[column]] is one series. *)
Abbreviation Series := (list cell).
Abbreviation DataFrame := (gmap string (list cell)).

(** [series.isnull().any()] *)
Definition any_null (s : Series) : bool := existsb isnull s.

(** ** The schema validator ([src/utils.py]) *)

Module Validator.

(** The objects a call can reach: the data frame and the contract it is
    given, and the list objects created so far, addressed by position. *)
Record state : Type := State {
  df_obj : DataFrame;
  contract_obj : pyval;
  list_objs : list (list string)
}.

Definition get_df : M state DataFrame := λ st, (Ok (df_obj st), st).
Definition get_contract : M state pyval := λ st, (Ok (contract_obj st), st).

(** [[]]: a new list object; the reference to it is returned. *)
Definition new_list : M state nat := λ st,
  (Ok (List.length (list_objs st)),
   State (df_obj st) (contract_obj st) (list_objs st ++ [[]])).

(** [ref.append(s)] mutates the list object in place. *)
Definition list_append (ref : nat) (s : string) : M state unit := λ st,
  (Ok (),
   State (df_obj st) (contract_obj st)
         (alter (λ xs, xs ++ [s]) ref (list_objs st))).

Definition read_list (ref : nat) : M state (list string) := λ st,
  (Ok (default [] (list_objs st !! ref)), st).

Definition missing_msg (column : string) : string :=
  "Missing required column: " +:+ column.

Definition null_msg (column : string) : string :=
  "Column " +:+ column +:+ " has null values but nullable=false".

(** The body of the loop over [schema.items()]. *)
Definition check_column (errors : nat) (item : string * pyval) : M state unit :=
  let '(column, rules) := item in
  df ← get_df;
  match df !! column with
  | None => list_append errors (missing_msg column)
  | Some series =>
      nullable ← lift (dict_get rules "nullable" (PBool true));
      if negb (truthy nullable) && any_null series
      then list_append errors (null_msg column)
      else mret ()
  end.

(** [validate_schema(df, contract)]; the result is the pair of the
    success flag and the reference to the [errors] list. *)
Definition validate_schema : M state (bool * nat) :=
  errors ← new_list;
  contract ← get_contract;
  schema ← lift (dict_get contract "schema" (PDict []));
  items ← lift (dict_items schema);
  for_each items (check_column errors);;
  errs ← read_list errors;
  mret (List.length errs =? 0, errors).

(** What the caller sees of a call: the exception, or the success flag
    and the contents of the returned list. *)
Definition outcome (r : result (bool * nat) * state)
  : result (bool * list string) :=
  match r with
  | (Ok (success, errors), st) =>
      Ok (success, default [] (list_objs st !! errors))
  | (Raise e, _) => Raise e
  end.

(** A call on a data frame [D] and a contract [C]: [(success, violations)]
    or the exception. *)
Definition validate_schema_returns (D : DataFrame) (C : pyval)
  : result (bool * list string) :=
  outcome (validate_schema (State D C [])).

(** *** The contract as the specification reads it *)

(** The items of the contract's schema mapping, in declaration order; a
    contract without the key, or one that is no mapping, names no column. *)
Definition schema (C : pyval) : list (string * pyval) :=
  match C with
  | PDict d =>
      match lookup_key "schema" d with
      | Some (PDict items) => items
      | _ => []
      end
  | _ => []
  end.

(** A rule set: a mapping whose [nullable] entry, when present, is a
    boolean. *)
Definition rule_set (rules : pyval) : bool :=
  match rules with
  | PDict r =>
      match lookup_key "nullable" r with
      | None | Some (PBool _) => true
      | Some _ => false
      end
  | _ => false
  end.

(** The rule set says [nullable: false]. *)
Definition non_nullable (rules : pyval) : bool :=
  match rules with
  | PDict r =>
      match lookup_key "nullable" r with
      | Some (PBool false) => true
      | _ => false
      end
  | _ => false
  end.

(** A contract of the data model: a mapping whose [schema] entry, when
    present, maps column names to rule sets. *)
Definition contract (C : pyval) : bool :=
  match C with
  | PDict d =>
      match lookup_key "schema" d with
      | None => true
      | Some (PDict items) => forallb (λ it, rule_set it.2) items
      | Some _ => false
      end
  | _ => false
  end.

(** The column is in the data set. *)
Definition present (D : DataFrame) (column : string) : bool :=
  bool_decide (is_Some (D !! column)).

(** The column is in the data set and holds a null. *)
Definition has_nulls (D : DataFrame) (column : string) : bool :=
  match D !! column with
  | Some series => any_null series
  | None => false
  end.

(** The two cases in which a contract column breaks the contract: it is
    missing, or it is non-nullable and holds a null. *)
Definition violates (D : DataFrame) (item : string * pyval) : bool :=
  negb (present D item.1) || (non_nullable item.2 && has_nulls D item.1).

(** The message for a column that breaks the contract. *)
Definition violation_msg (D : DataFrame) (item : string * pyval) : string :=
  if present D item.1 then null_msg item.1 else missing_msg item.1.

(** *** The loop without the store *)

(** What one iteration appends: nothing, or one message. *)
Definition verdict (D : DataFrame) (item : string * pyval)
  : result (option string) :=
  match D !! item.1 with
  | None => Ok (Some (missing_msg item.1))
  | Some series =>
      match dict_get item.2 "nullable" (PBool true) with
      | Ok nullable =>
          Ok (if negb (truthy nullable) && any_null series
              then Some (null_msg item.1) else None)
      | Raise e => Raise e
      end
  end.

(** The messages the loop appends, and the exception that ends it early,
    if any. *)
Fixpoint scan (D : DataFrame) (items : list (string * pyval))
  : list string * option exn :=
  match items with
  | [] => ([], None)
  | item :: rest =>
      match verdict D item with
      | Ok v => (option_list v ++ (scan D rest).1, (scan D rest).2)
      | Raise e => ([], Some e)
      end
  end.

(** The state after [msgs] were appended to the list at [ref]. *)
Definition appended (ref : nat) (msgs : list string) (st : state) : state :=
  State (df_obj st) (contract_obj st)
        (alter (λ xs, xs ++ msgs) ref (list_objs st)).

(** The items the loop runs over, or the exception of the two lookups
    before it. *)
Definition loop_items (C : pyval) : result (list (string * pyval)) :=
  match dict_get C "schema" (PDict []) with
  | Ok s => dict_items s
  | Raise e => Raise e
  end.

End Validator.


(** ** The contract loader ([src/utils.py]) *)

Module Loader.

(** The files by path, and the paths open for reading, the most recently
    opened first. *)
Record world : Type := World {
  files : gmap string string;
  open_files : list string
}.

(** [open(path, "r")]: the text of the file stands for the handle. *)
Definition open_r (path : string) : M world string := λ w,
  match files w !! path with
  | Some text => (Ok text, World (files w) (path :: open_files w))
  | None => (Raise FileNotFoundError, w)
  end.

(** Leaving a [with] block closes the handle the block opened. *)
Definition close : M world unit := λ w,
  (Ok (), World (files w) (tail (open_files w))).

(** [with open(path, "r") as f: body(f)]: the handle is closed whether
    the body returns or raises. *)
Definition with_open {A} (path : string) (body : string → M world A)
  : M world A := λ w,
  match open_r path w with
  | (Ok f, w1) =>
      match body f w1 with
      | (r, w2) => (r, (close w2).2)
      end
  | (Raise e, w1) => (Raise e, w1)
  end.

Definition default_contract_path : string := "config/data_contract.yaml".

Section Load.

(** [yaml.safe_load], the parser of the YAML library: the value it
    builds from a text, or the exception it raises on it. *)
Variable safe_load : string → result pyval.

Definition load_data_contract (contract_path : string) : M world pyval :=
  with_open contract_path (λ f, lift (safe_load f)).

End Load.

End Loader.

(** ** The expectation loop ([scripts/validate_data.py]) *)

Module Expectations.

(** The elements a [for] statement draws from a value: those of a list,
    the keys of a mapping, the characters of a string. *)
Definition iterate (v : pyval) : result (list pyval) :=
  match v with
  | PList l => Ok l
  | PDict items => Ok (map (λ it, PStr it.1) items)
  | PStr s => Ok (map (λ a, PStr (String a EmptyString)) (String.list_ascii_of_string s))
  | _ => Raise TypeError
  end.

(** The exception says that there is no such attribute. *)
Definition is_AttributeError (e : exn) : bool :=
  match e with
  | Exn class_name => String.eqb class_name "AttributeError"
  end.

Section Loop.

(** The validator object of the expectation library: its state, what
    looking up a name on it gives (the attribute is there, or the lookup
    raises, [AttributeError] when there is none), and what calling one of
    its methods with keyword arguments does to it. *)
Context {V : Type}.
Variable getattr : V → string → result unit.
Variable call_method : string → pyval → M V unit.

(** The validator, the counter of the loop, and the method calls made on
    the validator so far, oldest first. *)
Record loop_state : Type := LoopState {
  validator : V;
  expectation_count : nat;
  calls : list (string * pyval)
}.

(** The builtin [hasattr(obj, name)]: the lookup is tried; it is true
    when the lookup returns and false when it raises [AttributeError];
    any other exception goes on to the caller. *)
Definition hasattr (v : V) (name : string) : result bool :=
  match getattr v name with
  | Ok _ => Ok true
  | Raise e => if is_AttributeError e then Ok false else Raise e
  end.

(** [hasattr(validator, name)]; the name has to be a string. *)
Definition has_attribute (name : pyval) : M loop_state bool := λ st,
  match name with
  | PStr n => (hasattr (validator st) n, st)
  | _ => (Raise TypeError, st)
  end.

(** [expectation_method = getattr(validator, name)] *)
Definition get_method (name : pyval) : M loop_state unit := λ st,
  match name with
  | PStr n => (getattr (validator st) n, st)
  | _ => (Raise TypeError, st)
  end.

(** The method found under [name] is called with [kwargs] unpacked as
    keyword arguments: a value that is no mapping raises [TypeError]
    before the method is entered. *)
Definition invoke (name : pyval) (kwargs : pyval) : M loop_state unit := λ st,
  match name, kwargs with
  | PStr n, PDict _ =>
      match call_method n kwargs (validator st) with
      | (r, v) =>
          (r, LoopState v (expectation_count st) (calls st ++ [(n, kwargs)]))
      end
  | _, _ => (Raise TypeError, st)
  end.

Definition set_count (n : nat) : M loop_state unit := λ st,
  (Ok (), LoopState (validator st) n (calls st)).

Definition get_count : M loop_state nat := λ st,
  (Ok (expectation_count st), st).

(** The body of the loop over the suite. *)
Definition apply_expectation (exp_config : pyval) : M loop_state unit :=
  expectation_type ← lift (subscript exp_config "expectation_type");
  kwargs ← lift (subscript exp_config "kwargs");
  found ← has_attribute expectation_type;
  if found : bool then
    get_method expectation_type;;
    invoke expectation_type kwargs;;
    n ← get_count;
    set_count (n + 1)
  else mret ().

(** The counter is set to zero and every entry of
    [suite_dict["expectations"]] goes through the body; the value is the
    counter the script prints. *)
Definition apply_suite (suite_dict : pyval) : M loop_state nat :=
  set_count 0;;
  expectations ← lift (subscript suite_dict "expectations");
  entries ← lift (iterate expectations);
  for_each entries apply_expectation;;
  get_count.

(** The call an entry in [entries] made on a name that resolved. *)
Definition resolved_call (entries : list pyval) (c : string * pyval) : Prop :=
  ∃ exp_config v,
    exp_config ∈ entries ∧
    subscript exp_config "expectation_type" = Ok (PStr c.1) ∧
    subscript exp_config "kwargs" = Ok c.2 ∧
    getattr v c.1 = Ok ().

End Loop.

Arguments loop_state V : clear implicits.

End Expectations.

(** ** Contracts outside the data model *)

Module Contracts.
Import Validator.

Definition is_mapping (v : pyval) : bool :=
  match v with
  | PDict _ => true
  | _ => false
  end.

(** The contract is a mapping and its [schema] entry, if any, is one:
    the two lookups before the loop go through. *)
Definition schema_readable (C : pyval) : bool :=
  match C with
  | PDict d =>
      match lookup_key "schema" d with
      | None | Some (PDict _) => true
      | Some _ => false
      end
  | _ => false
  end.

(** Every rule set of a readable contract is a mapping. *)
Definition mappings (C : pyval) : bool :=
  schema_readable C && forallb (λ it, is_mapping it.2) (schema C).

(** [not rules.get("nullable", True)] on a rule set that is a mapping. *)
Definition flag_off (rules : pyval) : bool :=
  match rules with
  | PDict r =>
      match lookup_key "nullable" r with
      | Some v => negb (truthy v)
      | None => false
      end
  | _ => false
  end.

(** The rule set of the data model that reads the same, and the contract
    made of these. *)
Definition normal_rules (rules : pyval) : pyval :=
  PDict [("nullable", PBool (negb (flag_off rules)))].

Definition normal_contract (C : pyval) : pyval :=
  PDict [("schema", PDict (map (λ it, (it.1, normal_rules it.2)) (schema C)))].

End Contracts.

(** ** Entries of an expectation suite *)

Module SuiteEntries.

(** The method call an entry asks for: both keys are there and the type
    is a string. *)
Definition entry_call (exp_config : pyval) : option (string * pyval) :=
  match subscript exp_config "expectation_type",
        subscript exp_config "kwargs" with
  | Ok (PStr name), Ok kwargs => Some (name, kwargs)
  | _, _ => None
  end.

Section Settled.

Context {V : Type}.
Variable getattr : V → string → result unit.
Variable call_method : string → pyval → M V unit.

(** An entry of a suite whose names are settled: it is well formed, its
    [kwargs] is a mapping, the lookup of its name returns or raises
    [AttributeError] according to [known] in every state of the
    validator, and, if it returns, the method returns on these
    arguments. *)
Definition settled (known : string → bool) (exp_config : pyval) : Prop :=
  ∃ name items,
    entry_call exp_config = Some (name, PDict items) ∧
    (∀ v, getattr v name =
          if known name then Ok () else Raise AttributeError) ∧
    (known name = true →
     ∀ v, (call_method name (PDict items) v).1 = Ok ()).

End Settled.

End SuiteEntries.

(** ** Schema drift ([scripts/simulate_bad_data.py]) *)

Module Drift.

Definition IndexError : exn := Exn "IndexError".

(** A data frame with its columns in order and the length of its index;
    labels are unique. *)
Record Frame : Type := MkFrame {
  index_len : nat;
  columns : list (string * Series)
}.

(** [df.columns.tolist()] *)
Definition labels (f : Frame) : list string := map fst (columns f).

(** The frame as [validate_schema] looks at it. *)
Definition as_dataframe (f : Frame) : DataFrame := list_to_map (columns f).

(** [df[label] = ...]: the column is replaced where it stands, or added
    after the others. *)
Fixpoint set_column (label : string) (s : Series)
    (cols : list (string * Series)) : list (string * Series) :=
  match cols with
  | [] => [(label, s)]
  | (l, old) :: rest =>
      if String.eqb l label then (l, s) :: rest
      else (l, old) :: set_column label s rest
  end.

(** [df[label] = value] with a scalar: one copy of it per row. *)
Definition assign_scalar (label : string) (value : cell) (f : Frame) : Frame :=
  MkFrame (index_len f)
          (set_column label (replicate (index_len f) value) (columns f)).

(** [df.drop(columns=[label], inplace=True)] *)
Definition drop_column (label : string) (f : Frame) : result Frame :=
  if bool_decide (label ∈ labels f)
  then Ok (MkFrame (index_len f)
                   (List.filter (λ c, negb (String.eqb c.1 label)) (columns f)))
  else Raise KeyError.

(** The generator of the [random] module, as the numbers it will give,
    and the lines printed so far. *)
Record env : Type := Env {
  draws : nat → nat;
  position : nat;
  stdout : list string
}.

(** A number below [n], from the next draw. *)
Definition randbelow (n : nat) : M env nat := λ e,
  (Ok (draws e (position e) mod n),
   Env (draws e) (S (position e)) (stdout e)).

(** [random.choice(seq)] *)
Definition choice {A} (seq : list A) : M env A :=
  match seq with
  | [] => lift (Raise IndexError)
  | _ :: _ =>
      i ← randbelow (List.length seq);
      match seq !! i with
      | Some x => mret x
      | None => lift (Raise IndexError)
      end
  end.

Definition print (line : string) : M env unit := λ e,
  (Ok (), Env (draws e) (position e) (stdout e ++ [line])).

(** [add_schema_drift(df)]: the frame is copied, so that the one given
    stays as it is, and the copy is changed and returned. *)
Definition add_schema_drift (df : Frame) : M env Frame :=
  let df_corrupted := df in
  add ← choice [true; false];
  df_corrupted ←
    (if add : bool then
       print "  - Added new column: new_column";;
       mret (assign_scalar "new_column" (Text "unexpected_value") df_corrupted)
     else mret df_corrupted);
  remove ← choice [true; false];
  if (remove : bool) && (5 <? List.length (labels df_corrupted)) then
    col_to_remove ← choice (labels df_corrupted);
    dropped ← lift (drop_column col_to_remove df_corrupted);
    print ("  - Removed column: " +:+ col_to_remove);;
    mret dropped
  else mret df_corrupted.

(** The frame after the first step, with the column added or not. *)
Definition with_new_column (added : bool) (f : Frame) : Frame :=
  if added then assign_scalar "new_column" (Text "unexpected_value") f else f.

(** The lines printed for a column added and a column removed. *)
Definition drift_log (added : bool) (removed : option string) : list string :=
  (if added then ["  - Added new column: new_column"] else []) ++
  match removed with
  | Some c => ["  - Removed column: " +:+ c]
  | None => []
  end.

(** Labels are unique and every column has one cell per row. *)
Definition well_formed (f : Frame) : Prop :=
  NoDup (labels f) ∧
  Forall (λ c, List.length c.2 = index_len f) (columns f).

End Drift.

(** ** Sample data *)

Module Samples.

(** The contract and the data set of the specification's first scenario,
    with a third column the data set lacks. *)
Definition churn_contract : pyval :=
  PDict [("schema",
          PDict [("customerID", PDict [("nullable", PBool false)]);
                 ("gender", PDict [("nullable", PBool true)]);
                 ("TotalCharges", PDict [])])].

Definition churn_rows : DataFrame :=
  {[ "customerID" := [Text "7590-VHVEG"; Null];
     "gender" := [Text "Female"; Text "Male"] ]}.

Definition clean_rows : DataFrame :=
  {[ "customerID" := [Text "7590-VHVEG"; Text "5575-GNVDE"];
     "gender" := [Text "Female"; Null];
     "TotalCharges" := [Num 29; Null] ]}.

(** A stand-in for the YAML parser on two documents: the empty schema,
    and a text that is no YAML. *)
Definition sample_safe_load (text : string) : result pyval :=
  if String.eqb text "schema: {}" then Ok (PDict [("schema", PDict [])])
  else Raise (Exn "YAMLError").

Definition sample_files : gmap string string :=
  {[ "config/data_contract.yaml" := "schema: {}";
     "config/broken.yaml" := "schema: {" ]}.

(** A validator in the manner of the expectation library's, which keeps
    the configurations it was called with: two rules are registered; the
    lookup of another name that starts with [expect_] raises the
    library's [ExpectationNotFoundError], the lookup of any other name
    raises [AttributeError]. *)
Definition sample_known (name : string) : bool :=
  bool_decide (name ∈ ["expect_column_to_exist";
                       "expect_column_values_to_not_be_null"]).

Definition sample_getattr (v : list (string * pyval)) (name : string)
  : result unit :=
  if sample_known name then Ok ()
  else if String.prefix "expect_" name
       then Raise (Exn "ExpectationNotFoundError")
       else Raise AttributeError.

Definition sample_call (name : string) (kwargs : pyval)
  : M (list (string * pyval)) unit :=
  λ v, (Ok (), v ++ [(name, kwargs)]).

Definition known_entry : pyval :=
  PDict [("expectation_type", PStr "expect_column_to_exist");
         ("kwargs", PDict [("column", PStr "customerID")])].

(** A rule the library does not have. *)
Definition unknown_entry : pyval :=
  PDict [("expectation_type", PStr "expect_column_to_be_happy");
         ("kwargs", PDict [("column", PStr "gender")])].

(** A name that is no attribute of the validator at all. *)
Definition unlisted_entry : pyval :=
  PDict [("expectation_type", PStr "check_column_exists");
         ("kwargs", PDict [("column", PStr "gender")])].

(** A contract with extra keys and flags that are no booleans. *)
Definition loose_contract : pyval :=
  PDict [("version", PInt 2);
         ("schema",
          PDict [("customerID", PDict [("dtype", PStr "str"); ("nullable", PInt 0)]);
                 ("gender", PDict [("nullable", PStr "no")]);
                 ("tenure", PDict [("nullable", PNone)])])].

(** Six columns, two rows. *)
Definition six_columns : Drift.Frame :=
  Drift.MkFrame 2
    [("customerID", [Text "7590-VHVEG"; Text "5575-GNVDE"]);
     ("gender", [Text "Female"; Text "Male"]);
     ("tenure", [Num 1; Num 34]);
     ("Contract", [Text "Month-to-month"; Text "One year"]);
     ("TotalCharges", [Num 29; Num 1889]);
     ("Churn", [Text "No"; Text "No"])].

(** A generator that answers [k] at every draw. *)
Definition always (k : nat) : Drift.env := Drift.Env (λ _, k) 0 [].

(** A generator whose draws are 1, 0, 2: no column added, one removed,
    the third. *)
Definition drop_third : Drift.env :=
  Drift.Env (λ i, match i with 0 => 1 | 1 => 0 | _ => 2 end) 0 [].

End Samples.

(** * Properties *)

Module ValidatorProofs.
Import Validator.

Lemma appended_nil ref st : appended ref [] st = st.
Proof.
  destruct st as [D C ls]. unfold appended. simpl. f_equal.
  apply list_alter_id. intros xs. apply app_nil_r.
Qed.

Lemma appended_app ref m1 m2 st :
  appended ref m2 (appended ref m1 st) = appended ref (m1 ++ m2) st.
Proof.
  destruct st as [D C ls]. unfold appended. simpl. f_equal.
  rewrite list_alter_alter_eq. apply list_alter_ext; [|done].
  intros xs _. simpl. by rewrite app_assoc.
Qed.

Lemma check_column_verdict errors item st :
  check_column errors item st =
  match verdict (df_obj st) item with
  | Ok v => (Ok (), appended errors (option_list v) st)
  | Raise e => (Raise e, st)
  end.
Proof.
  destruct item as [column rules]. unfold check_column, verdict. simpl.
  unfold mbind, M_bind, get_df. simpl.
  destruct (df_obj st !! column) as [series|]; [|done].
  unfold lift. destruct (dict_get rules "nullable" (PBool true)) as [v|e]; [|done].
  destruct (negb (truthy v) && any_null series); [done|].
  simpl. by rewrite appended_nil.
Qed.

Lemma for_each_scan errors items st :
  for_each items (check_column errors) st =
  (match (scan (df_obj st) items).2 with
   | None => Ok ()
   | Some e => Raise e
   end,
   appended errors (scan (df_obj st) items).1 st).
Proof.
  revert st. induction items as [|item rest IH]; intros st.
  - simpl. by rewrite appended_nil.
  - simpl. unfold mbind, M_bind. rewrite check_column_verdict.
    destruct (verdict (df_obj st) item) as [v|e]; simpl.
    + rewrite IH. simpl. by rewrite appended_app.
    + by rewrite appended_nil.
Qed.

Lemma alter_last (f : list string → list string) ls xs :
  alter f (List.length ls) (ls ++ [xs]) = ls ++ [f xs].
Proof.
  replace (List.length ls) with (List.length ls + 0) by lia.
  by rewrite alter_app_r.
Qed.

(** Every run leaves the data frame and the contract as they were and
    adds one list object, the [errors] list, after the existing ones. *)
Lemma validate_schema_run st :
  validate_schema st =
  match loop_items (contract_obj st) with
  | Ok items =>
      (match (scan (df_obj st) items).2 with
       | None => Ok (List.length (scan (df_obj st) items).1 =? 0,
                     List.length (list_objs st))
       | Some e => Raise e
       end,
       State (df_obj st) (contract_obj st)
             (list_objs st ++ [(scan (df_obj st) items).1]))
  | Raise e =>
      (Raise e, State (df_obj st) (contract_obj st) (list_objs st ++ [[]]))
  end.
Proof.
  destruct st as [D C ls]. unfold validate_schema, loop_items.
  unfold mbind, M_bind, new_list, get_contract, lift. simpl.
  destruct (dict_get C "schema" (PDict [])) as [s|e]; [|done].
  destruct (dict_items s) as [items|e]; [|done].
  rewrite for_each_scan. unfold appended. simpl. rewrite alter_last. simpl.
  destruct (scan D items).2 as [e|]; [done|].
  unfold read_list, mret, M_ret. simpl.
  rewrite lookup_app_r by done. by rewrite Nat.sub_diag.
Qed.

(** The outcome of a run does not depend on the lists already there. *)
Lemma outcome_run st :
  outcome (validate_schema st) =
  match loop_items (contract_obj st) with
  | Ok items =>
      match (scan (df_obj st) items).2 with
      | None => Ok (List.length (scan (df_obj st) items).1 =? 0,
                    (scan (df_obj st) items).1)
      | Some e => Raise e
      end
  | Raise e => Raise e
  end.
Proof.
  rewrite validate_schema_run.
  destruct (loop_items (contract_obj st)) as [items|e]; [|done].
  destruct (scan (df_obj st) items).2 as [e|]; [done|].
  simpl. by rewrite list_lookup_middle.
Qed.

Lemma validate_schema_returns_scan D C :
  validate_schema_returns D C =
  match loop_items C with
  | Ok items =>
      match (scan D items).2 with
      | None => Ok (List.length (scan D items).1 =? 0, (scan D items).1)
      | Some e => Raise e
      end
  | Raise e => Raise e
  end.
Proof.
  unfold validate_schema_returns. by rewrite outcome_run.
Qed.

(** *** Contracts of the data model *)

Lemma verdict_rule_set D item :
  rule_set item.2 = true →
  verdict D item =
  Ok (if violates D item then Some (violation_msg D item) else None).
Proof.
  destruct item as [column rules]. simpl. intros Hrules.
  unfold verdict, violates, violation_msg, present, has_nulls. simpl.
  destruct (D !! column) as [series|] eqn:HD.
  - rewrite bool_decide_eq_true_2 by eauto. simpl.
    destruct rules as [| | | | |r]; try discriminate. simpl in *.
    destruct (lookup_key "nullable" r) as [[|[]| | | |]|]; try discriminate; done.
  - rewrite bool_decide_eq_false_2; [done|]. by intros [? ?].
Qed.

Lemma scan_rule_sets D items :
  forallb (λ it, rule_set it.2) items = true →
  scan D items = (map (violation_msg D) (List.filter (violates D) items), None).
Proof.
  induction items as [|item rest IH]; [done|]. simpl.
  intros [Hitem Hrest]%andb_prop. rewrite verdict_rule_set by done.
  rewrite (IH Hrest). simpl. by destruct (violates D item).
Qed.

Lemma contract_loop_items C :
  contract C = true →
  loop_items C = Ok (schema C) ∧
  forallb (λ it, rule_set it.2) (schema C) = true.
Proof.
  unfold contract, loop_items, schema, dict_get.
  destruct C as [| | | | |d]; try discriminate.
  destruct (lookup_key "schema" d) as [[| | | | |items]|]; try discriminate; done.
Qed.

(** On a contract of the data model the call returns, with one message
    per violating column, in the order of the schema. *)
Lemma validate_schema_returns_contract D C :
  contract C = true →
  validate_schema_returns D C =
  Ok (List.length (List.filter (violates D) (schema C)) =? 0,
      map (violation_msg D) (List.filter (violates D) (schema C))).
Proof.
  intros [Hitems Hrules]%contract_loop_items.
  rewrite validate_schema_returns_scan, Hitems, (scan_rule_sets _ _ Hrules).
  simpl. by rewrite length_map.
Qed.

Lemma loop_items_schema C items : loop_items C = Ok items → items = schema C.
Proof.
  unfold loop_items, schema, dict_get.
  destruct C as [| | | | |d]; try discriminate.
  destruct (lookup_key "schema" d) as [[| | | | |its]|]; simpl;
    try discriminate; congruence.
Qed.

(** *** Data sets that agree on a column *)

Lemma any_null_pattern (s1 s2 : Series) :
  map isnull s1 = map isnull s2 → any_null s1 = any_null s2.
Proof.
  unfold any_null. revert s2.
  induction s1 as [|c1 s1 IH]; intros [|c2 s2] Heq; try discriminate; [done|].
  simpl in *. injection Heq as -> Heq. by rewrite (IH s2).
Qed.

Lemma verdict_agree D1 D2 item :
  map isnull <$> D1 !! item.1 = map isnull <$> D2 !! item.1 →
  verdict D1 item = verdict D2 item.
Proof.
  unfold verdict.
  destruct (D1 !! item.1) as [s1|], (D2 !! item.1) as [s2|];
    simpl; try discriminate; [|done].
  intros [= Heq]. by rewrite (any_null_pattern _ _ Heq).
Qed.

Lemma scan_agree D1 D2 items :
  (∀ item, item ∈ items →
     map isnull <$> D1 !! item.1 = map isnull <$> D2 !! item.1) →
  scan D1 items = scan D2 items.
Proof.
  induction items as [|item rest IH]; intros Hagree; [done|]. simpl.
  rewrite (verdict_agree D1 D2) by (apply Hagree; left).
  rewrite IH; [done|]. intros it Hin. apply Hagree. by right.
Qed.

(** *** The two messages never collide *)

Lemma append_length (s t : string) :
  String.length (s +:+ t) = String.length s + String.length t.
Proof. induction s as [|a s IH]; simpl; [done|]. by rewrite IH. Qed.

Lemma append_inj_r (t s1 s2 : string) : s1 +:+ t = s2 +:+ t → s1 = s2.
Proof.
  revert s2. induction s1 as [|a s1 IH]; intros [|b s2] Heq; simpl in Heq.
  - done.
  - apply (f_equal String.length) in Heq.
    rewrite ?append_length in Heq. simpl in Heq.
    rewrite ?append_length in Heq. lia.
  - apply (f_equal String.length) in Heq.
    rewrite ?append_length in Heq. simpl in Heq.
    rewrite ?append_length in Heq. lia.
  - injection Heq as -> Heq. f_equal. by apply IH.
Qed.

Lemma null_msg_inj c c' : null_msg c = null_msg c' → c = c'.
Proof.
  unfold null_msg. intros Heq. apply String.app_inj in Heq.
  by apply append_inj_r in Heq.
Qed.

Lemma null_msg_not_missing c c' : null_msg c ≠ missing_msg c'.
Proof. unfold null_msg, missing_msg. simpl. discriminate. Qed.

Lemma filter_violates_app D (l1 l2 : list (string * pyval)) :
  List.filter (violates D) (l1 ++ l2) =
  List.filter (violates D) l1 ++ List.filter (violates D) l2.
Proof. apply List.filter_app. Qed.

(** Outside the data model the flag is read by its truth value: a
    [nullable] entry that is [None] counts as false, and a rule set that
    is no mapping makes the call raise once its column is found. *)
Example nullable_none_read_as_false :
  validate_schema_returns {[ "gender" := [Null] ]}
    (PDict [("schema", PDict [("gender", PDict [("nullable", PNone)])])]) =
  Ok (false, ["Column gender has null values but nullable=false"]).
Proof. reflexivity. Qed.

Example rule_set_none_raises :
  validate_schema_returns {[ "gender" := [Text "F"] ]}
    (PDict [("schema", PDict [("gender", PNone)])]) =
  Raise AttributeError.
Proof. reflexivity. Qed.

Lemma validate_schema_returns_clean D C :
  contract C = true →
  (∀ item, item ∈ schema C → violates D item = false) →
  validate_schema_returns D C = Ok (true, []).
Proof.
  intros HC Hclean. rewrite validate_schema_returns_contract by done.
  assert (List.filter (violates D) (schema C) = []) as ->; [|done].
  induction (schema C) as [|item rest IH]; [done|]. simpl.
  rewrite Hclean by left. apply IH. intros it Hin. apply Hclean. by right.
Qed.

End ValidatorProofs.

Module ValidatorClaims.
Import Validator ValidatorProofs Samples.

(** C1. If every column named in the contract's schema is present in the
    data set and every column whose rule set says [nullable: false] holds
    no null, [validate_schema] returns [(True, [])]. *)
Theorem validate_schema_clean (D : DataFrame) (C : pyval) :
  contract C = true →
  (∀ column rules, (column, rules) ∈ schema C → is_Some (D !! column)) →
  (∀ column rules series,
     (column, rules) ∈ schema C → non_nullable rules = true →
     D !! column = Some series → any_null series = false) →
  validate_schema_returns D C = Ok (true, []).
Proof.
  intros HC Hpresent Hnulls. apply validate_schema_returns_clean; [done|].
  intros [column rules] Hin. unfold violates, present, has_nulls. simpl.
  destruct (Hpresent column rules Hin) as [series Hseries].
  rewrite Hseries, bool_decide_eq_true_2 by eauto. simpl.
  destruct (non_nullable rules) eqn:Hflag; [|done]. simpl.
  by eapply Hnulls.
Qed.

Lemma validate_schema_clean_witness :
  validate_schema_returns clean_rows churn_contract = Ok (true, []).
Proof.
  apply validate_schema_clean.
  - reflexivity.
  - intros column rules Hin. simpl in Hin.
    repeat (apply elem_of_cons in Hin as [[= -> ->]|Hin];
            [vm_compute; eexists; reflexivity|]).
    by apply not_elem_of_nil in Hin.
  - intros column rules series Hin. simpl in Hin.
    repeat (apply elem_of_cons in Hin as [[= -> ->]|Hin];
            [vm_compute; intros Hflag Hseries;
             first [discriminate Hflag
                   |injection Hseries as <-; reflexivity]|]).
    by apply not_elem_of_nil in Hin.
Defined.

(** C2. The violations are one per schema column that is missing from
    the data set or is non-nullable and holds a null: that many, from
    those columns only, and the success flag is true exactly when there
    is none. *)
Theorem validate_schema_counts (D : DataFrame) (C : pyval) :
  contract C = true →
  ∃ success violations,
    validate_schema_returns D C = Ok (success, violations) ∧
    List.length violations =
      List.length (List.filter (violates D) (schema C)) ∧
    violations = map (violation_msg D) (List.filter (violates D) (schema C)) ∧
    (success = true ↔ List.length (List.filter (violates D) (schema C)) = 0).
Proof.
  intros HC. eexists _, _. split; [by apply validate_schema_returns_contract|].
  split; [by rewrite length_map|]. split; [done|].
  destruct (List.filter (violates D) (schema C)); simpl; split; auto; lia || done.
Qed.

Lemma validate_schema_counts_witness :
  ∃ success violations,
    validate_schema_returns churn_rows churn_contract = Ok (success, violations) ∧
    List.length violations = 2 ∧
    violations = ["Column customerID has null values but nullable=false";
                  "Missing required column: TotalCharges"] ∧
    (success = true ↔ 2 = 0).
Proof. exact (validate_schema_counts churn_rows churn_contract eq_refl). Defined.

(** C3. A contract column that the data set lacks makes the loop append
    exactly ["Missing required column: {name}"], whatever its rule set
    is; in the returned list that message stands for the column and the
    null-values message for it does not occur. *)
Theorem missing_column_reported (column : string) :
  (∀ errors rules st,
     df_obj st !! column = None →
     check_column errors (column, rules) st =
     (Ok (), appended errors ["Missing required column: " +:+ column] st)) ∧
  (∀ D C rules,
     contract C = true → (column, rules) ∈ schema C → D !! column = None →
     ∃ violations,
       validate_schema_returns D C = Ok (false, violations) ∧
       "Missing required column: " +:+ column ∈ violations ∧
       "Column " +:+ column +:+ " has null values but nullable=false"
         ∉ violations).
Proof.
  split.
  - intros errors rules st Habsent. rewrite check_column_verdict.
    unfold verdict. simpl. by rewrite Habsent.
  - intros D C rules HC Hin Habsent.
    assert (present D column = false) as Hpresent.
    { unfold present. apply bool_decide_eq_false_2. rewrite Habsent.
      by intros [? ?]. }
    assert ((column, rules) ∈ List.filter (violates D) (schema C)) as Hviol.
    { apply list_elem_of_In, filter_In. split; [by apply list_elem_of_In|].
      unfold violates. simpl. by rewrite Hpresent. }
    exists (map (violation_msg D) (List.filter (violates D) (schema C))).
    split; [|split].
    + rewrite validate_schema_returns_contract by done.
      destruct (List.filter (violates D) (schema C)); [|done].
      by apply not_elem_of_nil in Hviol.
    + apply list_elem_of_In, in_map_iff. exists (column, rules).
      split; [|by apply list_elem_of_In].
      unfold violation_msg. simpl. by rewrite Hpresent.
    + intros Hnull. apply list_elem_of_In, in_map_iff in Hnull
        as ([c r] & Hmsg & _).
      unfold violation_msg in Hmsg. simpl in Hmsg.
      destruct (present D c) eqn:Hc.
      * apply (null_msg_inj c column) in Hmsg as ->. congruence.
      * by apply eq_sym, null_msg_not_missing in Hmsg.
Qed.

Lemma missing_column_reported_witness :
  check_column 0 ("TotalCharges", PDict [("nullable", PBool false)])
               (State churn_rows churn_contract [[]]) =
  (Ok (), State churn_rows churn_contract
                [["Missing required column: TotalCharges"]]) ∧
  ∃ violations,
    validate_schema_returns churn_rows churn_contract = Ok (false, violations) ∧
    "Missing required column: TotalCharges" ∈ violations ∧
    "Column TotalCharges has null values but nullable=false" ∉ violations.
Proof.
  destruct (missing_column_reported "TotalCharges") as [Hstep Hcall]. split.
  - apply (Hstep 0 _ (State churn_rows churn_contract [[]])). reflexivity.
  - apply (Hcall churn_rows churn_contract (PDict [])).
    + reflexivity.
    + simpl. do 2 right. left.
    + reflexivity.
Defined.

(** C4. Violations come in the order of the schema: when column [a] is
    declared before column [b] and both break the contract, the message
    of [a] stands before the message of [b], between the messages of the
    columns declared before, between and after them. *)
Theorem violations_in_schema_order (D : DataFrame) (C : pyval)
    (before between after : list (string * pyval)) (a b : string * pyval) :
  contract C = true →
  schema C = before ++ a :: between ++ b :: after →
  violates D a = true → violates D b = true →
  ∃ success,
    validate_schema_returns D C =
    Ok (success,
        map (violation_msg D) (List.filter (violates D) before) ++
        violation_msg D a ::
        map (violation_msg D) (List.filter (violates D) between) ++
        violation_msg D b ::
        map (violation_msg D) (List.filter (violates D) after)).
Proof.
  intros HC Hschema Ha Hb. eexists.
  rewrite validate_schema_returns_contract, Hschema by done.
  rewrite filter_violates_app. simpl. rewrite Ha.
  rewrite filter_violates_app. simpl. rewrite Hb.
  rewrite map_app. simpl. rewrite map_app. simpl. done.
Qed.

Lemma violations_in_schema_order_witness :
  ∃ success,
    validate_schema_returns churn_rows churn_contract =
    Ok (success,
        ["Column customerID has null values but nullable=false";
         "Missing required column: TotalCharges"]).
Proof.
  exact (violations_in_schema_order churn_rows churn_contract
           [] [("gender", PDict [("nullable", PBool true)])] []
           ("customerID", PDict [("nullable", PBool false)])
           ("TotalCharges", PDict [])
           eq_refl eq_refl eq_refl eq_refl).
Defined.

(** C7. Two successive calls on the same data frame and contract give
    the same [(success, violations)], the one a call on them gives
    whatever lists exist already; each call leaves the data frame, the
    contract and the existing lists as they were, and returns a list of
    its own. *)
Theorem validate_schema_repeatable (st : state) :
  let first := validate_schema st in
  let second := validate_schema first.2 in
  outcome second = outcome first ∧
  outcome first = validate_schema_returns (df_obj st) (contract_obj st) ∧
  df_obj first.2 = df_obj st ∧ contract_obj first.2 = contract_obj st ∧
  df_obj second.2 = df_obj st ∧ contract_obj second.2 = contract_obj st ∧
  (∃ errors1, list_objs first.2 = list_objs st ++ [errors1]) ∧
  (∃ errors2, list_objs second.2 = list_objs first.2 ++ [errors2]).
Proof.
  intros first second.
  assert (df_obj first.2 = df_obj st ∧ contract_obj first.2 = contract_obj st ∧
          ∃ errors1, list_objs first.2 = list_objs st ++ [errors1])
    as (HD1 & HC1 & Hl1).
  { subst first. rewrite validate_schema_run.
    destruct (loop_items (contract_obj st)); simpl; eauto. }
  assert (df_obj second.2 = df_obj first.2 ∧
          contract_obj second.2 = contract_obj first.2 ∧
          ∃ errors2, list_objs second.2 = list_objs first.2 ++ [errors2])
    as (HD2 & HC2 & Hl2).
  { subst second. rewrite validate_schema_run.
    destruct (loop_items (contract_obj first.2)); simpl; eauto. }
  assert (outcome first =
          validate_schema_returns (df_obj st) (contract_obj st)) as Hfirst.
  { subst first. by rewrite outcome_run, validate_schema_returns_scan. }
  split; [|by repeat split; try congruence].
  rewrite Hfirst. subst second.
  by rewrite outcome_run, validate_schema_returns_scan, HD1, HC1.
Qed.

(** C8. The result depends on the data set only through the columns the
    contract names: data sets with the same presence and the same null
    pattern on each of them give the same result, and so does a data set
    with a column added that the contract does not name. *)
Theorem validate_schema_contract_columns_only (C : pyval) :
  (∀ D1 D2 : DataFrame,
     (∀ column rules, (column, rules) ∈ schema C →
        map isnull <$> D1 !! column = map isnull <$> D2 !! column) →
     validate_schema_returns D1 C = validate_schema_returns D2 C) ∧
  (∀ (D : DataFrame) column series,
     (∀ rules, (column, rules) ∉ schema C) →
     validate_schema_returns (<[column := series]> D) C =
     validate_schema_returns D C).
Proof.
  assert (∀ D1 D2 : DataFrame,
     (∀ column rules, (column, rules) ∈ schema C →
        map isnull <$> D1 !! column = map isnull <$> D2 !! column) →
     validate_schema_returns D1 C = validate_schema_returns D2 C) as Hagree.
  { intros D1 D2 Hsame. rewrite !validate_schema_returns_scan.
    destruct (loop_items C) as [items|e] eqn:Hitems; [|done].
    apply loop_items_schema in Hitems as ->.
    rewrite (scan_agree D1 D2); [done|].
    intros [column rules] Hin. by apply (Hsame column rules). }
  split; [exact Hagree|].
  intros D column series Hunnamed. apply Hagree.
  intros c rules Hin. rewrite lookup_insert_ne; [done|].
  intros <-. by apply (Hunnamed rules).
Qed.

Lemma validate_schema_contract_columns_only_witness :
  validate_schema_returns
    {[ "customerID" := [Num 1; Null]; "gender" := [Num 0; Num 0] ]}
    churn_contract =
  validate_schema_returns churn_rows churn_contract ∧
  validate_schema_returns (<["tenure" := [Null; Null]]> churn_rows)
                          churn_contract =
  validate_schema_returns churn_rows churn_contract.
Proof.
  destruct (validate_schema_contract_columns_only churn_contract)
    as [Hagree Hextra].
  split.
  - apply Hagree. intros column rules Hin. simpl in Hin.
    repeat (apply elem_of_cons in Hin as [[= -> ->]|Hin]; [reflexivity|]).
    by apply not_elem_of_nil in Hin.
  - apply Hextra. intros rules Hin. simpl in Hin.
    repeat (apply elem_of_cons in Hin as [[=]|Hin]).
    by apply not_elem_of_nil in Hin.
Defined.

(** C9. A contract whose schema mapping is empty gives [(True, [])] on
    every data set. *)
Theorem validate_schema_empty_schema (D : DataFrame) (d : list (string * pyval)) :
  lookup_key "schema" d = Some (PDict []) →
  validate_schema_returns D (PDict d) = Ok (true, []).
Proof.
  intros Hschema. apply validate_schema_returns_clean.
  - simpl. by rewrite Hschema.
  - simpl. rewrite Hschema. intros item Hin. by apply not_elem_of_nil in Hin.
Qed.

Lemma validate_schema_empty_schema_witness :
  validate_schema_returns churn_rows (PDict [("schema", PDict [])]) =
  Ok (true, []).
Proof.
  exact (validate_schema_empty_schema churn_rows [("schema", PDict [])] eq_refl).
Defined.

(** C10. A data set that has every contract column but no row gives
    [(True, [])], non-nullable columns included: no null is found in an
    empty column.  A contract mapping without the [schema] key gives
    [(True, [])] as well. *)
Theorem validate_schema_no_rows_no_schema (D : DataFrame) :
  (∀ C,
     contract C = true →
     (∀ column rules, (column, rules) ∈ schema C → D !! column = Some []) →
     validate_schema_returns D C = Ok (true, [])) ∧
  (∀ d,
     lookup_key "schema" d = None →
     validate_schema_returns D (PDict d) = Ok (true, [])).
Proof.
  split.
  - intros C HC Hempty. apply validate_schema_returns_clean; [done|].
    intros [column rules] Hin. unfold violates, present, has_nulls. simpl.
    rewrite (Hempty column rules Hin), bool_decide_eq_true_2 by eauto.
    simpl. apply andb_false_r.
  - intros d Hschema. apply validate_schema_returns_clean.
    + simpl. by rewrite Hschema.
    + simpl. rewrite Hschema. intros item Hin.
      by apply not_elem_of_nil in Hin.
Qed.

Lemma validate_schema_no_rows_no_schema_witness :
  validate_schema_returns
    {[ "customerID" := []; "gender" := []; "TotalCharges" := [] ]}
    churn_contract = Ok (true, []) ∧
  validate_schema_returns
    {[ "customerID" := []; "gender" := []; "TotalCharges" := [] ]}
    (PDict [("version", PInt 1)]) = Ok (true, []).
Proof.
  destruct (validate_schema_no_rows_no_schema
              {[ "customerID" := []; "gender" := []; "TotalCharges" := [] ]})
    as [Hrows Hkey].
  split.
  - apply Hrows; [reflexivity|]. intros column rules Hin. simpl in Hin.
    repeat (apply elem_of_cons in Hin as [[= -> ->]|Hin]; [reflexivity|]).
    by apply not_elem_of_nil in Hin.
  - apply Hkey. reflexivity.
Defined.

End ValidatorClaims.

Module LoaderClaims.
Import Loader Samples.

(** C6, as the code has it. A missing document makes [load_data_contract]
    raise the [FileNotFoundError] of [open]; on a document that is there
    the outcome is the parser's own, its value unmodified or its
    exception unchanged.  Either way the files are as before and no
    handle stays open. *)
Theorem load_data_contract_outcomes
    (safe_load : string → result pyval) (contract_path : string) (w : world) :
  load_data_contract safe_load contract_path w =
  match files w !! contract_path with
  | Some text => (safe_load text, w)
  | None => (Raise FileNotFoundError, w)
  end.
Proof.
  destruct w as [fs handles].
  unfold load_data_contract, with_open, open_r. simpl.
  by destruct (fs !! contract_path).
Qed.

(** C6, as stated, fails: the exception for a missing document is
    [FileNotFoundError], not [ConfigParseError]. *)
Lemma load_data_contract_missing_not_ConfigParseError :
  (load_data_contract sample_safe_load "config/missing.yaml"
                      (World sample_files [])).1
    = Raise (Exn "FileNotFoundError") ∧
  (load_data_contract sample_safe_load "config/missing.yaml"
                      (World sample_files [])).1
    ≠ Raise (Exn "ConfigParseError").
Proof. split; [reflexivity|]. vm_compute. discriminate. Qed.

End LoaderClaims.

Module ExpectationClaims.
Import Expectations Samples.

Section LoopProofs.

Context {V : Type}.
Variable getattr : V → string → result unit.
Variable call_method : string → pyval → M V unit.

Local Abbreviation body := (apply_expectation getattr call_method).

(** An entry whose name the lookup does not find changes nothing. *)
Lemma apply_expectation_skip exp_config name kwargs st e :
  subscript exp_config "expectation_type" = Ok (PStr name) →
  subscript exp_config "kwargs" = Ok kwargs →
  getattr (validator st) name = Raise e →
  is_AttributeError e = true →
  body exp_config st = (Ok (), st).
Proof.
  intros Htype Hkwargs Hattr He.
  unfold apply_expectation, mbind, M_bind, lift.
  rewrite Htype, Hkwargs. simpl. unfold hasattr. by rewrite Hattr, He.
Qed.

(** An entry on whose name the lookup raises anything else ends the
    iteration with that exception. *)
Lemma apply_expectation_lookup_raises exp_config name kwargs st e :
  subscript exp_config "expectation_type" = Ok (PStr name) →
  subscript exp_config "kwargs" = Ok kwargs →
  getattr (validator st) name = Raise e →
  is_AttributeError e = false →
  body exp_config st = (Raise e, st).
Proof.
  intros Htype Hkwargs Hattr He.
  unfold apply_expectation, mbind, M_bind, lift.
  rewrite Htype, Hkwargs. simpl. unfold hasattr. by rewrite Hattr, He.
Qed.

(** An entry whose name resolves is one call, counted when it returns,
    unless its [kwargs] is no mapping. *)
Lemma apply_expectation_call exp_config name kwargs st :
  subscript exp_config "expectation_type" = Ok (PStr name) →
  subscript exp_config "kwargs" = Ok kwargs →
  getattr (validator st) name = Ok () →
  body exp_config st =
  match kwargs with
  | PDict _ =>
      match call_method name kwargs (validator st) with
      | (Ok _, v) =>
          (Ok (), LoopState v (expectation_count st + 1)
                            (calls st ++ [(name, kwargs)]))
      | (Raise e, v) =>
          (Raise e, LoopState v (expectation_count st)
                              (calls st ++ [(name, kwargs)]))
      end
  | _ => (Raise TypeError, st)
  end.
Proof.
  intros Htype Hkwargs Hattr. unfold apply_expectation, mbind, M_bind, lift.
  rewrite Htype, Hkwargs. simpl. unfold hasattr. rewrite Hattr. simpl.
  rewrite Hattr. unfold invoke.
  destruct kwargs as [| | | | |items]; try done.
  by destruct (call_method name (PDict items) (validator st)) as [[[]|e] v].
Qed.

(** One iteration makes no call and leaves the counter, or makes one
    call on a name that resolved and counts it if it returned. *)
Lemma apply_expectation_cases exp_config st :
  (calls (body exp_config st).2 = calls st ∧
   expectation_count (body exp_config st).2 = expectation_count st) ∨
  (∃ c, resolved_call getattr [exp_config] c ∧
        calls (body exp_config st).2 = calls st ++ [c] ∧
        expectation_count (body exp_config st).2 =
          expectation_count st +
          match (body exp_config st).1 with Ok _ => 1 | Raise _ => 0 end).
Proof.
  destruct (subscript exp_config "expectation_type") as [t|e] eqn:Htype;
    [|left; unfold apply_expectation, mbind, M_bind, lift;
      by rewrite Htype].
  destruct (subscript exp_config "kwargs") as [kwargs|e] eqn:Hkwargs;
    [|left; unfold apply_expectation, mbind, M_bind, lift;
      by rewrite Htype, Hkwargs].
  destruct t as [| | |name| |];
    try (left; unfold apply_expectation, mbind, M_bind, lift;
         by rewrite Htype, Hkwargs).
  destruct (getattr (validator st) name) as [[]|e] eqn:Hattr.
  - rewrite (apply_expectation_call _ _ _ _ Htype Hkwargs Hattr).
    destruct kwargs as [| | | | |items]; try (by left).
    right. exists (name, PDict items). split.
    + exists exp_config, (validator st). split; [left|done].
    + by destruct (call_method name (PDict items) (validator st))
        as [[[]|e] v]; simpl; rewrite ?Nat.add_0_r.
  - left. destruct (is_AttributeError e) eqn:He.
    + by rewrite (apply_expectation_skip _ _ _ _ _ Htype Hkwargs Hattr He).
    + by rewrite (apply_expectation_lookup_raises _ _ _ _ _
                    Htype Hkwargs Hattr He).
Qed.

Lemma resolved_call_mono entries entries' c :
  (∀ e, e ∈ entries → e ∈ entries') →
  resolved_call getattr entries c → resolved_call getattr entries' c.
Proof.
  intros Hsub (e & v & Hin & H). exists e, v. split; [by apply Hsub|done].
Qed.

(** The loop: the calls it makes are calls on names that resolved, and
    when it ends without an exception the counter grew by their number. *)
Lemma for_each_apply_expectation entries st :
  ∃ new,
    calls (for_each entries body st).2 = calls st ++ new ∧
    Forall (resolved_call getattr entries) new ∧
    (∀ u, (for_each entries body st).1 = Ok u →
       expectation_count (for_each entries body st).2 =
       expectation_count st + List.length new).
Proof.
  revert st. induction entries as [|e rest IH]; intros st.
  - exists []. simpl. rewrite app_nil_r, Nat.add_0_r. by repeat split.
  - simpl. unfold mbind, M_bind.
    destruct (apply_expectation_cases e st) as [[Hcalls Hcount]|(c & Hc & Hcalls & Hcount)];
      destruct (body e st) as [[[]|err] st1] eqn:Hbody; simpl in *.
    + destruct (IH st1) as (new & Hnew & Hres & Hn). exists new.
      rewrite Hnew, Hcalls. split; [done|]. split.
      * eapply Forall_impl; [exact Hres|]. intros c Hc.
        eapply resolved_call_mono; [|exact Hc]. intros x Hx. by right.
      * intros u Hu. rewrite (Hn u Hu). by rewrite Hcount.
    + exists []. rewrite app_nil_r. by repeat split.
    + destruct (IH st1) as (new & Hnew & Hres & Hn). exists (c :: new).
      rewrite Hnew, Hcalls, <- app_assoc. split; [done|]. split.
      * constructor.
        -- eapply resolved_call_mono; [|exact Hc].
           intros x Hx. apply list_elem_of_singleton in Hx as ->. left.
        -- eapply Forall_impl; [exact Hres|]. intros c' Hc'.
           eapply resolved_call_mono; [|exact Hc']. intros x Hx. by right.
      * intros u Hu. rewrite (Hn u Hu), Hcount. simpl. lia.
    + exists [c]. split; [done|]. split; [|done].
      constructor; [|done]. eapply resolved_call_mono; [|exact Hc].
      intros x Hx. apply list_elem_of_singleton in Hx as ->. left.
Qed.

(** C5, on the code. The guard of the loop is [hasattr], which takes
    only [AttributeError] for a no.  An entry on whose name the
    validator's lookup raises [AttributeError] is skipped: the iteration
    ends without an exception and leaves the validator, the calls made
    and the counter as they were.  An entry on whose name the lookup
    raises any other exception is not skipped: the iteration raises that
    exception.  An entry whose name resolves is one call and, once it
    returns, one more in the counter; and the counter a completed loop
    reports is the number of calls made, each for an entry whose name
    resolved. *)
Theorem expectation_skipped_only_on_AttributeError :
  (∀ exp_config name kwargs st e,
     subscript exp_config "expectation_type" = Ok (PStr name) →
     subscript exp_config "kwargs" = Ok kwargs →
     getattr (validator st) name = Raise e →
     is_AttributeError e = true →
     apply_expectation getattr call_method exp_config st = (Ok (), st)) ∧
  (∀ exp_config name kwargs st e,
     subscript exp_config "expectation_type" = Ok (PStr name) →
     subscript exp_config "kwargs" = Ok kwargs →
     getattr (validator st) name = Raise e →
     is_AttributeError e = false →
     apply_expectation getattr call_method exp_config st = (Raise e, st)) ∧
  (∀ exp_config name items st v,
     subscript exp_config "expectation_type" = Ok (PStr name) →
     subscript exp_config "kwargs" = Ok (PDict items) →
     getattr (validator st) name = Ok () →
     call_method name (PDict items) (validator st) = (Ok (), v) →
     apply_expectation getattr call_method exp_config st =
     (Ok (), LoopState v (expectation_count st + 1)
                       (calls st ++ [(name, PDict items)]))) ∧
  (∀ suite_dict expectations entries st n st',
     subscript suite_dict "expectations" = Ok expectations →
     iterate expectations = Ok entries →
     apply_suite getattr call_method suite_dict st = (Ok n, st') →
     ∃ new,
       calls st' = calls st ++ new ∧
       n = List.length new ∧
       expectation_count st' = n ∧
       Forall (resolved_call getattr entries) new).
Proof.
  split; [exact apply_expectation_skip|].
  split; [exact apply_expectation_lookup_raises|]. split.
  - intros exp_config name items st v Htype Hkwargs Hattr Hcall.
    rewrite (apply_expectation_call _ _ _ _ Htype Hkwargs Hattr).
    by rewrite Hcall.
  - intros suite_dict expectations entries st n st' Hsuite Hentries.
    unfold apply_suite, mbind, M_bind, lift, set_count.
    rewrite Hsuite, Hentries.
    set (st0 := LoopState (validator st) 0 (calls st)).
    destruct (for_each_apply_expectation entries st0)
      as (new & Hcalls & Hres & Hcount).
    destruct (for_each entries body st0) as [[[]|e] st1]; [|discriminate].
    unfold get_count. intros [= <- <-]. exists new.
    specialize (Hcount () eq_refl). simpl in *.
    by rewrite Hcount, Hcalls.
Qed.

End LoopProofs.

Lemma expectation_skipped_only_on_AttributeError_witness :
  apply_expectation sample_getattr sample_call unlisted_entry
                    (LoopState [] 0 []) = (Ok (), LoopState [] 0 []) ∧
  apply_expectation sample_getattr sample_call unknown_entry
                    (LoopState [] 0 []) =
  (Raise (Exn "ExpectationNotFoundError"), LoopState [] 0 []) ∧
  apply_expectation sample_getattr sample_call known_entry
                    (LoopState [] 0 []) =
  (Ok (),
   LoopState [("expect_column_to_exist", PDict [("column", PStr "customerID")])]
             1
             [("expect_column_to_exist", PDict [("column", PStr "customerID")])]) ∧
  ∃ new,
    new = [("expect_column_to_exist", PDict [("column", PStr "customerID")])] ∧
    1 = List.length new ∧
    Forall (resolved_call sample_getattr
              [unlisted_entry; known_entry; unlisted_entry])
           new.
Proof.
  destruct (expectation_skipped_only_on_AttributeError sample_getattr sample_call)
    as (Hskip & Hraise & Hcall & Hloop).
  split; [|split; [|split]].
  - apply (Hskip unlisted_entry "check_column_exists"
                 (PDict [("column", PStr "gender")])
                 (LoopState [] 0 []) AttributeError); reflexivity.
  - apply (Hraise unknown_entry "expect_column_to_be_happy"
                  (PDict [("column", PStr "gender")])
                  (LoopState [] 0 []) (Exn "ExpectationNotFoundError"));
      reflexivity.
  - apply (Hcall known_entry "expect_column_to_exist"
                 [("column", PStr "customerID")]
                 (LoopState [] 0 [])); reflexivity.
  - destruct (Hloop
      (PDict [("expectations", PList [unlisted_entry; known_entry; unlisted_entry])])
      (PList [unlisted_entry; known_entry; unlisted_entry])
      [unlisted_entry; known_entry; unlisted_entry]
      (LoopState [] 7 []) 1
      (LoopState
         [("expect_column_to_exist", PDict [("column", PStr "customerID")])] 1
         [("expect_column_to_exist", PDict [("column", PStr "customerID")])])
      eq_refl eq_refl eq_refl) as (new & Hcalls & Hn & _ & Hres).
    exists new. simpl in Hcalls. by subst new.
Defined.

End ExpectationClaims.

(** * Further properties of the schema validator *)

Module ValidatorExtra.
Import Validator ValidatorProofs Contracts Samples.

Lemma schema_readable_loop_items C :
  loop_items C =
  if schema_readable C then Ok (schema C) else Raise AttributeError.
Proof.
  unfold loop_items, schema_readable, schema, dict_get.
  destruct C as [| | | | |d]; try done.
  by destruct (lookup_key "schema" d) as [[| | | | |items]|].
Qed.

Lemma verdict_raises D item :
  match verdict D item with
  | Ok _ => present D item.1 && negb (is_mapping item.2) = false
  | Raise e =>
      e = AttributeError ∧ present D item.1 = true ∧ is_mapping item.2 = false
  end.
Proof.
  destruct item as [column rules]. unfold verdict, present. simpl.
  destruct (D !! column) as [series|] eqn:HD.
  - rewrite bool_decide_eq_true_2 by eauto.
    destruct rules as [| | | | |r]; simpl; try done.
    by destruct (lookup_key "nullable" r).
  - rewrite bool_decide_eq_false_2; [done|]. by intros [? ?].
Qed.

Lemma scan_raises D items :
  match (scan D items).2 with
  | None =>
      ∀ item, item ∈ items →
        present D item.1 && negb (is_mapping item.2) = false
  | Some e =>
      e = AttributeError ∧
      ∃ item, item ∈ items ∧ present D item.1 = true ∧
              is_mapping item.2 = false
  end.
Proof.
  induction items as [|item rest IH]; simpl.
  - intros item Hin. by apply not_elem_of_nil in Hin.
  - pose proof (verdict_raises D item) as Hitem.
    destruct (verdict D item) as [v|e]; simpl.
    + destruct (scan D rest).2 as [e|].
      * destruct IH as (-> & it & Hin & Hit). split; [done|].
        exists it. split; [by right|done].
      * intros it [->|Hin]%elem_of_cons; [done|by apply IH].
    + destruct Hitem as (-> & Hp & Hm). split; [done|].
      exists item. split; [left|done].
Qed.

(** When the call raises, and what. *)
Lemma returns_raise_cases (D : DataFrame) (C : pyval) :
  (∀ e, validate_schema_returns D C = Raise e → e = AttributeError) ∧
  ((∃ e, validate_schema_returns D C = Raise e) ↔
   schema_readable C = false ∨
   ∃ item, item ∈ schema C ∧ present D item.1 = true ∧
           is_mapping item.2 = false).
Proof.
  rewrite validate_schema_returns_scan, schema_readable_loop_items.
  destruct (schema_readable C).
  - pose proof (scan_raises D (schema C)) as Hscan.
    destruct (scan D (schema C)).2 as [e|].
    + destruct Hscan as (-> & Hitem). split; [by intros e [= <-]|].
      split; [by right|eauto].
    + split; [done|]. split; [by intros [? ?]|].
      intros [?|(item & Hin & Hp & Hm)]; [done|].
      specialize (Hscan item Hin). rewrite Hp, Hm in Hscan. done.
  - split; [by intros e [= <-]|]. split; eauto.
Qed.

(** X1. On a data set with one series per column label, the call raises
    [AttributeError] exactly when the contract or its [schema] entry is
    no mapping, or the rule set of a column the data set has is no
    mapping; in every other case it returns a result.  A rule set that
    is no mapping does no harm on a column the data set lacks. *)
Theorem validate_schema_raises (D : DataFrame) (C : pyval) :
  (validate_schema_returns D C = Raise AttributeError ↔
   schema_readable C = false ∨
   ∃ item, item ∈ schema C ∧ present D item.1 = true ∧
           is_mapping item.2 = false) ∧
  ((∃ success violations,
      validate_schema_returns D C = Ok (success, violations)) ↔
   ¬ (schema_readable C = false ∨
      ∃ item, item ∈ schema C ∧ present D item.1 = true ∧
              is_mapping item.2 = false)).
Proof.
  destruct (returns_raise_cases D C) as [Hclass Hiff]. split.
  - rewrite <- Hiff. split; [eauto|]. intros [e He].
    by rewrite He, (Hclass e He).
  - rewrite <- Hiff. split.
    + intros (success & violations & Hok) [e He]. congruence.
    + intros Hnot.
      destruct (validate_schema_returns D C) as [[success violations]|e];
        [eauto|]. destruct Hnot. eauto.
Qed.

Lemma verdict_normal D item :
  is_mapping item.2 = true →
  verdict D (item.1, normal_rules item.2) = verdict D item.
Proof.
  destruct item as [column rules]. simpl. intros Hrules.
  unfold verdict. simpl. destruct (D !! column) as [series|]; [|done].
  destruct rules as [| | | | |r]; try discriminate. simpl.
  destruct (lookup_key "nullable" r) as [v|]; simpl; [|done].
  by rewrite negb_involutive.
Qed.

Lemma scan_normal D items :
  forallb (λ it, is_mapping it.2) items = true →
  scan D (map (λ it, (it.1, normal_rules it.2)) items) = scan D items.
Proof.
  induction items as [|item rest IH]; [done|]. simpl.
  intros [Hitem Hrest]%andb_prop.
  by rewrite (verdict_normal D item Hitem), (IH Hrest).
Qed.

(** X2. A contract made of mappings is read like a contract of the data
    model: the [nullable] entry of a rule set counts by its truth value
    (absent counts as true) and every other key is ignored. *)
Theorem validate_schema_reads_truth_values (D : DataFrame) (C : pyval) :
  mappings C = true →
  contract (normal_contract C) = true ∧
  validate_schema_returns D C = validate_schema_returns D (normal_contract C).
Proof.
  intros [Hread Hmaps]%andb_prop. split.
  - unfold normal_contract. generalize (schema C). intros items. simpl.
    induction items as [|item rest IH]; simpl; done.
  - rewrite !validate_schema_returns_scan, schema_readable_loop_items, Hread.
    simpl. by rewrite scan_normal.
Qed.

Lemma validate_schema_reads_truth_values_witness :
  contract (normal_contract loose_contract) = true ∧
  validate_schema_returns churn_rows loose_contract =
  validate_schema_returns churn_rows
    (PDict [("schema",
             PDict [("customerID", PDict [("nullable", PBool false)]);
                    ("gender", PDict [("nullable", PBool true)]);
                    ("tenure", PDict [("nullable", PBool false)])])]).
Proof. exact (validate_schema_reads_truth_values churn_rows loose_contract eq_refl). Defined.

Lemma scan_app D l1 l2 :
  scan D (l1 ++ l2) =
  match (scan D l1).2 with
  | Some e => scan D l1
  | None => ((scan D l1).1 ++ (scan D l2).1, (scan D l2).2)
  end.
Proof.
  induction l1 as [|item rest IH]; simpl.
  - by destruct (scan D l2).
  - destruct (verdict D item) as [v|e]; simpl; [|done].
    rewrite IH. destruct (scan D rest).2 as [e|] eqn:Hrest; simpl.
    + by rewrite Hrest.
    + by rewrite app_assoc.
Qed.

Lemma loop_items_lookup d items :
  lookup_key "schema" d = Some (PDict items) → loop_items (PDict d) = Ok items.
Proof. intros H. unfold loop_items. simpl. by rewrite H. Qed.

(** X3. Checking a schema that is the concatenation of two is checking
    the two in turn: an exception of the first part ends the call, else
    one of the second does, else the violations are those of the first
    followed by those of the second and the call succeeds when both do. *)
Theorem validate_schema_concat (D : DataFrame)
    (d d1 d2 l1 l2 : list (string * pyval)) :
  lookup_key "schema" d = Some (PDict (l1 ++ l2)) →
  lookup_key "schema" d1 = Some (PDict l1) →
  lookup_key "schema" d2 = Some (PDict l2) →
  validate_schema_returns D (PDict d) =
  match validate_schema_returns D (PDict d1) with
  | Raise e => Raise e
  | Ok (success1, violations1) =>
      match validate_schema_returns D (PDict d2) with
      | Raise e => Raise e
      | Ok (success2, violations2) =>
          Ok (success1 && success2, violations1 ++ violations2)
      end
  end.
Proof.
  intros H H1 H2. rewrite !validate_schema_returns_scan.
  rewrite (loop_items_lookup _ _ H), (loop_items_lookup _ _ H1),
    (loop_items_lookup _ _ H2), scan_app.
  destruct (scan D l1).2 as [e|] eqn:He1; [by rewrite He1|]. simpl.
  destruct (scan D l2).2 as [e|]; [done|].
  rewrite length_app. f_equal. f_equal.
  by destruct (scan D l1).1, (scan D l2).1.
Qed.

Lemma validate_schema_concat_witness :
  validate_schema_returns churn_rows churn_contract =
  Ok (false && false,
      ["Column customerID has null values but nullable=false"] ++
      ["Missing required column: TotalCharges"]).
Proof.
  exact (validate_schema_concat churn_rows
           [("schema",
             PDict ([("customerID", PDict [("nullable", PBool false)]);
                     ("gender", PDict [("nullable", PBool true)])] ++
                    [("TotalCharges", PDict [])]))]
           [("schema",
             PDict [("customerID", PDict [("nullable", PBool false)]);
                    ("gender", PDict [("nullable", PBool true)])])]
           [("schema", PDict [("TotalCharges", PDict [])])]
           _ _ eq_refl eq_refl eq_refl).
Defined.

Lemma verdict_message D item v :
  verdict D item = Ok (Some v) →
  v = missing_msg item.1 ∧ D !! item.1 = None ∨
  v = null_msg item.1 ∧ has_nulls D item.1 = true.
Proof.
  unfold verdict, has_nulls. destruct (D !! item.1) as [series|].
  - destruct (dict_get item.2 "nullable" (PBool true)) as [flag|]; [|done].
    destruct (negb (truthy flag)); simpl; [|done].
    destruct (any_null series); [|done]. intros [= <-]. by right.
  - intros [= <-]. by left.
Qed.

Lemma scan_messages D items :
  List.length (scan D items).1 ≤ List.length items ∧
  Forall (λ v, ∃ item, item ∈ items ∧
            (v = missing_msg item.1 ∧ D !! item.1 = None ∨
             v = null_msg item.1 ∧ has_nulls D item.1 = true))
         (scan D items).1.
Proof.
  induction items as [|item rest [IHlen IHall]]; simpl; [by split|].
  destruct (verdict D item) as [v|e] eqn:Hv; simpl; [|split; [lia|done]].
  assert (Forall (λ v, ∃ it, it ∈ item :: rest ∧
            (v = missing_msg it.1 ∧ D !! it.1 = None ∨
             v = null_msg it.1 ∧ has_nulls D it.1 = true))
         (scan D rest).1) as Hrest.
  { eapply Forall_impl; [exact IHall|]. intros m (it & Hin & Hm).
    exists it. split; [by right|done]. }
  destruct v as [m|]; simpl.
  - split; [lia|]. constructor; [|done].
    exists item. split; [left|]. by apply verdict_message.
  - split; [lia|done].
Qed.

(** X4. Whatever the call returns is well formed: success is true
    exactly when the list is empty, there is at most one message per
    schema column, and each message is the missing-column message of a
    schema column the data set lacks or the null-values message of one
    in which it has a null. *)
Theorem validate_schema_result_shape (D : DataFrame) (C : pyval)
    (success : bool) (violations : list string) :
  validate_schema_returns D C = Ok (success, violations) →
  (success = true ↔ violations = []) ∧
  List.length violations ≤ List.length (schema C) ∧
  Forall (λ v, ∃ item, item ∈ schema C ∧
            (v = "Missing required column: " +:+ item.1 ∧ D !! item.1 = None ∨
             v = "Column " +:+ item.1 +:+ " has null values but nullable=false" ∧
             has_nulls D item.1 = true))
         violations.
Proof.
  rewrite validate_schema_returns_scan, schema_readable_loop_items.
  destruct (schema_readable C); [|done].
  pose proof (scan_messages D (schema C)) as [Hlen Hall].
  destruct (scan D (schema C)).2; [done|]. intros [= <- <-].
  split; [|done]. by destruct (scan D (schema C)).1.
Qed.

Lemma validate_schema_result_shape_witness :
  (false = true ↔
   ["Column customerID has null values but nullable=false";
    "Missing required column: TotalCharges"] = []) ∧
  2 ≤ List.length (schema churn_contract) ∧
  Forall (λ v, ∃ item, item ∈ schema churn_contract ∧
            (v = "Missing required column: " +:+ item.1 ∧
             churn_rows !! item.1 = None ∨
             v = "Column " +:+ item.1 +:+ " has null values but nullable=false" ∧
             has_nulls churn_rows item.1 = true))
         ["Column customerID has null values but nullable=false";
          "Missing required column: TotalCharges"].
Proof.
  exact (validate_schema_result_shape churn_rows churn_contract false _ eq_refl).
Defined.

Lemma missing_msg_inj c c' : missing_msg c = missing_msg c' → c = c'.
Proof. unfold missing_msg. apply String.app_inj. Qed.

Lemma violation_msg_column D item item' :
  violation_msg D item = violation_msg D item' → item.1 = item'.1.
Proof.
  unfold violation_msg.
  destruct (present D item.1), (present D item'.1); intros Heq.
  - by apply null_msg_inj.
  - by apply null_msg_not_missing in Heq.
  - by apply eq_sym, null_msg_not_missing in Heq.
  - by apply missing_msg_inj.
Qed.

Lemma has_nulls_present D c : has_nulls D c = true → present D c = true.
Proof.
  unfold has_nulls, present. destruct (D !! c) eqn:HD; [|done].
  intros _. apply bool_decide_eq_true_2. eauto.
Qed.

Lemma present_None D c : present D c = false ↔ D !! c = None.
Proof.
  unfold present. destruct (D !! c) eqn:HD.
  - rewrite bool_decide_eq_true_2 by eauto. done.
  - rewrite bool_decide_eq_false_2; [done|]. by intros [? ?].
Qed.

(** X5. The violations can be read back: the missing-column message of a
    column is in the list exactly when the schema names the column and
    the data set lacks it, and its null-values message exactly when the
    schema names it with [nullable: false] and the data set has a null
    in it. *)
Theorem violations_read_back (D : DataFrame) (C : pyval) :
  contract C = true →
  ∃ success violations,
    validate_schema_returns D C = Ok (success, violations) ∧
    (∀ c, "Missing required column: " +:+ c ∈ violations ↔
          (∃ rules, (c, rules) ∈ schema C) ∧ D !! c = None) ∧
    (∀ c, "Column " +:+ c +:+ " has null values but nullable=false"
            ∈ violations ↔
          ∃ rules, (c, rules) ∈ schema C ∧ non_nullable rules = true ∧
                   has_nulls D c = true).
Proof.
  intros HC. eexists _, _.
  split; [by apply validate_schema_returns_contract|]. split.
  - intros c. rewrite list_elem_of_In, in_map_iff. split.
    + intros ([c' rules] & Hmsg & [Hin Hviol]%filter_In).
      unfold violation_msg in Hmsg. simpl in Hmsg.
      destruct (present D c') eqn:Hc.
      * by apply null_msg_not_missing in Hmsg.
      * apply missing_msg_inj in Hmsg as ->.
        split; [exists rules; by apply list_elem_of_In|by apply present_None].
    + intros [[rules Hin] Habsent]. apply present_None in Habsent.
      exists (c, rules). unfold violation_msg. simpl. rewrite Habsent.
      split; [done|]. apply filter_In. split; [by apply list_elem_of_In|].
      unfold violates. simpl. by rewrite Habsent.
  - intros c. rewrite list_elem_of_In, in_map_iff. split.
    + intros ([c' rules] & Hmsg & [Hin Hviol]%filter_In).
      unfold violation_msg in Hmsg. unfold violates in Hviol. simpl in *.
      destruct (present D c') eqn:Hc.
      * apply null_msg_inj in Hmsg as ->. simpl in Hviol.
        apply andb_prop in Hviol as [Hflag Hnulls].
        exists rules. split; [by apply list_elem_of_In|done].
      * by apply eq_sym, null_msg_not_missing in Hmsg.
    + intros (rules & Hin & Hflag & Hnulls). exists (c, rules).
      unfold violation_msg. simpl. rewrite (has_nulls_present _ _ Hnulls).
      split; [done|]. apply filter_In. split; [by apply list_elem_of_In|].
      unfold violates. simpl. rewrite Hflag, Hnulls. apply orb_true_r.
Qed.

Lemma violations_read_back_witness :
  ∃ success violations,
    validate_schema_returns churn_rows churn_contract = Ok (success, violations) ∧
    (∀ c, "Missing required column: " +:+ c ∈ violations ↔
          (∃ rules, (c, rules) ∈ schema churn_contract) ∧
          churn_rows !! c = None) ∧
    (∀ c, "Column " +:+ c +:+ " has null values but nullable=false"
            ∈ violations ↔
          ∃ rules, (c, rules) ∈ schema churn_contract ∧
                   non_nullable rules = true ∧ has_nulls churn_rows c = true).
Proof. exact (violations_read_back churn_rows churn_contract eq_refl). Defined.

Lemma NoDup_violation_msgs D (items : list (string * pyval)) :
  NoDup (map fst items) →
  NoDup (map (violation_msg D) (List.filter (violates D) items)).
Proof.
  induction items as [|item rest IH]; simpl; [constructor|].
  intros [Hfresh Hrest]%NoDup_cons. specialize (IH Hrest).
  destruct (violates D item); [|done]. simpl. apply NoDup_cons. split; [|done].
  intros ([c rules] & Hmsg & [Hin _]%filter_In)%list_elem_of_In%in_map_iff.
  apply violation_msg_column in Hmsg. apply Hfresh.
  apply list_elem_of_In, in_map_iff. exists (c, rules). by rewrite Hmsg.
Qed.

(** X6. When the schema names every column once, as a mapping does, no
    message occurs twice in the returned list. *)
Theorem violations_distinct (D : DataFrame) (C : pyval) :
  contract C = true →
  NoDup (map fst (schema C)) →
  ∃ success violations,
    validate_schema_returns D C = Ok (success, violations) ∧
    NoDup violations.
Proof.
  intros HC Hkeys. eexists _, _.
  split; [by apply validate_schema_returns_contract|].
  by apply NoDup_violation_msgs.
Qed.

Lemma violations_distinct_witness :
  ∃ success violations,
    validate_schema_returns churn_rows churn_contract = Ok (success, violations) ∧
    NoDup violations.
Proof.
  apply (violations_distinct churn_rows churn_contract); [reflexivity|].
  simpl. apply (bool_decide_unpack (NoDup _)). vm_compute. exact I.
Defined.

(** Fewer nulls in the same columns: the verdict of an iteration goes
    away or stays. *)
Lemma verdict_fewer_nulls (D D' : DataFrame) item :
  (∀ c, is_Some (D !! c) ↔ is_Some (D' !! c)) →
  (∀ c s s', D !! c = Some s → D' !! c = Some s' →
     any_null s' = true → any_null s = true) →
  match verdict D item, verdict D' item with
  | Ok v, Ok v' => v' = None ∨ v' = v
  | Raise e, Raise e' => e = e'
  | _, _ => False
  end.
Proof.
  intros Hcols Hnulls. unfold verdict.
  destruct (D !! item.1) as [s|] eqn:HD, (D' !! item.1) as [s'|] eqn:HD'.
  - destruct (dict_get item.2 "nullable" (PBool true)) as [flag|]; [|done].
    destruct (negb (truthy flag)); simpl; [|by right].
    destruct (any_null s') eqn:Hs'; [|by left].
    rewrite (Hnulls _ _ _ HD HD' Hs'). by right.
  - destruct (Hcols item.1) as [[? H] _]; [by eauto|]. congruence.
  - destruct (Hcols item.1) as [_ [? H]]; [by eauto|]. congruence.
  - by right.
Qed.

Lemma scan_fewer_nulls (D D' : DataFrame) items :
  (∀ c, is_Some (D !! c) ↔ is_Some (D' !! c)) →
  (∀ c s s', D !! c = Some s → D' !! c = Some s' →
     any_null s' = true → any_null s = true) →
  (scan D' items).2 = (scan D items).2 ∧
  (scan D' items).1 `sublist_of` (scan D items).1.
Proof.
  intros Hcols Hnulls. induction items as [|item rest [IH2 IH1]]; simpl.
  - by split.
  - pose proof (verdict_fewer_nulls D D' item Hcols Hnulls) as Hitem.
    destruct (verdict D item) as [v|e], (verdict D' item) as [v'|e'];
      try done; simpl.
    + split; [done|]. destruct Hitem as [-> | ->].
      * simpl. destruct v; simpl; [by apply sublist_cons|done].
      * by apply sublist_app.
    + by subst.
Qed.

(** X7. Taking nulls out of a data set never adds a violation: with the
    same columns and no null where there was none, the call raises the
    same exception or returns a sublist of the violations, and succeeds
    if it did. *)
Theorem fewer_nulls_fewer_violations (D D' : DataFrame) (C : pyval) :
  (∀ c, is_Some (D !! c) ↔ is_Some (D' !! c)) →
  (∀ c s s', D !! c = Some s → D' !! c = Some s' →
     any_null s' = true → any_null s = true) →
  match validate_schema_returns D C, validate_schema_returns D' C with
  | Ok (success, violations), Ok (success', violations') =>
      violations' `sublist_of` violations ∧ (success = true → success' = true)
  | Raise e, Raise e' => e = e'
  | _, _ => False
  end.
Proof.
  intros Hcols Hnulls. rewrite !validate_schema_returns_scan.
  destruct (loop_items C) as [items|e]; [|done].
  destruct (scan_fewer_nulls D D' items Hcols Hnulls) as [H2 H1].
  rewrite H2. destruct (scan D items).2; [done|]. split; [done|].
  destruct (scan D items).1; [|done]. by apply sublist_nil_r in H1 as ->.
Qed.

Lemma fewer_nulls_fewer_violations_witness :
  match validate_schema_returns churn_rows churn_contract,
        validate_schema_returns
          {[ "customerID" := [Text "7590-VHVEG"; Text "5575-GNVDE"];
             "gender" := [Text "Female"; Text "Male"] ]} churn_contract with
  | Ok (success, violations), Ok (success', violations') =>
      violations' `sublist_of` violations ∧ (success = true → success' = true)
  | Raise e, Raise e' => e = e'
  | _, _ => False
  end.
Proof.
  apply fewer_nulls_fewer_violations.
  - intros c. unfold churn_rows.
    rewrite !lookup_insert, !lookup_singleton.
    repeat case_decide; split; intros [? ?]; done || eauto.
  - intros c s s'. unfold churn_rows.
    rewrite !lookup_insert, !lookup_singleton.
    repeat case_decide; intros [= <-] [= <-]; done.
Defined.

End ValidatorExtra.

(** * Further properties of the expectation loop *)

Module ExpectationExtra.
Import Expectations SuiteEntries ExpectationClaims Samples.

Section LoopFacts.

Context {V : Type}.
Variable getattr : V → string → result unit.
Variable call_method : string → pyval → M V unit.

Local Abbreviation body := (apply_expectation getattr call_method).
Local Abbreviation reset st := (LoopState (validator st) 0 (calls st)).

Lemma entry_call_Some exp_config name kwargs :
  entry_call exp_config = Some (name, kwargs) →
  subscript exp_config "expectation_type" = Ok (PStr name) ∧
  subscript exp_config "kwargs" = Ok kwargs.
Proof.
  unfold entry_call.
  destruct (subscript exp_config "expectation_type") as [[| | |n| |]|];
    try done.
  destruct (subscript exp_config "kwargs") as [k|]; [|done].
  by intros [= -> ->].
Qed.

(** X8. An entry that is no mapping, lacks one of the two keys or has a
    type that is no string raises before the validator is looked at,
    whether or not its name would resolve: [TypeError], [KeyError] and
    [TypeError] in turn, with the validator, the calls and the counter
    as they were. *)
Theorem malformed_entry_raises (st : loop_state V) :
  (∀ exp_config,
     (∀ items, exp_config ≠ PDict items) →
     body exp_config st = (Raise TypeError, st)) ∧
  (∀ items,
     lookup_key "expectation_type" items = None ∨
     lookup_key "kwargs" items = None →
     body (PDict items) st = (Raise KeyError, st)) ∧
  (∀ items t kwargs,
     lookup_key "expectation_type" items = Some t →
     lookup_key "kwargs" items = Some kwargs →
     (∀ name, t ≠ PStr name) →
     body (PDict items) st = (Raise TypeError, st)).
Proof.
  split; [|split].
  - intros exp_config Hshape. unfold apply_expectation, mbind, M_bind, lift.
    destruct exp_config as [| | | | |items]; try done. by destruct (Hshape items).
  - intros items Hmissing. unfold apply_expectation, mbind, M_bind, lift. simpl.
    destruct (lookup_key "expectation_type" items) as [t|]; [|done].
    destruct Hmissing as [?| ->]; done.
  - intros items t kwargs Ht Hk Hname.
    unfold apply_expectation, mbind, M_bind, lift. simpl. rewrite Ht, Hk.
    destruct t as [| | |name| |]; try done. by destruct (Hname name).
Qed.

Lemma for_each_app {S A} (l1 l2 : list A) (f : A → M S unit) st :
  for_each (l1 ++ l2) f st =
  match for_each l1 f st with
  | (Ok _, st1) => for_each l2 f st1
  | (Raise e, st1) => (Raise e, st1)
  end.
Proof.
  revert st. induction l1 as [|x rest IH]; intros st; [done|].
  simpl. unfold mbind, M_bind. destruct (f x st) as [[[]|e] st1]; [|done].
  apply IH.
Qed.

(** X9. The first entry that raises ends the loop with its exception:
    the entries after it are not looked at, and the state is the one the
    failing entry left. *)
Theorem failing_entry_stops_loop (suite_dict : pyval)
    (before after : list pyval) (exp_config : pyval)
    (st st1 st2 : loop_state V) (err : exn) :
  subscript suite_dict "expectations" = Ok (PList (before ++ exp_config :: after)) →
  for_each before body (reset st) = (Ok (), st1) →
  body exp_config st1 = (Raise err, st2) →
  apply_suite getattr call_method suite_dict st = (Raise err, st2).
Proof.
  intros Hsuite Hbefore Hfail.
  unfold apply_suite, mbind, M_bind, lift, set_count. rewrite Hsuite. simpl.
  rewrite for_each_app, Hbefore. simpl. unfold mbind, M_bind.
  by rewrite Hfail.
Qed.

Lemma for_each_settled (known : string → bool) entries st :
  Forall (settled getattr call_method known) entries →
  ∃ v,
    for_each entries body st =
    (Ok (),
     LoopState v
       (expectation_count st +
        List.length (List.filter (λ c, known c.1) (omap entry_call entries)))
       (calls st ++ List.filter (λ c, known c.1) (omap entry_call entries))).
Proof.
  intros Hentries. revert st.
  induction Hentries as [|e rest (name & items & He & Hlookup & Hreturns) _ IH];
    intros st.
  - exists (validator st). simpl. rewrite Nat.add_0_r, app_nil_r.
    by destruct st.
  - simpl. rewrite He. simpl. unfold mbind, M_bind.
    apply entry_call_Some in He as [Htype Hkwargs].
    specialize (Hlookup (validator st)).
    destruct (known name) eqn:Hknown.
    + rewrite (apply_expectation_call getattr call_method e name
                 (PDict items) st Htype Hkwargs Hlookup).
      specialize (Hreturns eq_refl (validator st)).
      destruct (call_method name (PDict items) (validator st))
        as [[[]|err] v1]; [|done].
      destruct (IH (LoopState v1 (expectation_count st + 1)
                              (calls st ++ [(name, PDict items)]))) as [v Hv].
      exists v. rewrite Hv. simpl. rewrite <- app_assoc. simpl.
      by rewrite <- Nat.add_assoc.
    + rewrite (apply_expectation_skip getattr call_method e name
                 (PDict items) st AttributeError Htype Hkwargs Hlookup eq_refl).
      apply IH.
Qed.

(** X10. When, for every entry of the suite, the entry is well formed
    with a mapping for [kwargs], the lookup of its name returns or
    raises [AttributeError] whatever the validator's state is, and the
    method of a name that resolves returns on the entry's arguments,
    the loop ends with the number of entries whose name resolves, and
    the calls made are those entries, in suite order. *)
Theorem apply_suite_counts_known (known : string → bool)
    (suite_dict : pyval) (entries : list pyval) (st : loop_state V) :
  subscript suite_dict "expectations" = Ok (PList entries) →
  Forall (settled getattr call_method known) entries →
  ∃ st',
    apply_suite getattr call_method suite_dict st =
    (Ok (List.length (List.filter (λ c, known c.1) (omap entry_call entries))),
     st') ∧
    calls st' =
    calls st ++ List.filter (λ c, known c.1) (omap entry_call entries).
Proof.
  intros Hsuite Hentries.
  unfold apply_suite, mbind, M_bind, lift, set_count. rewrite Hsuite. simpl.
  destruct (for_each_settled known entries (reset st) Hentries) as [v Hv].
  rewrite Hv. simpl. eexists. split; [reflexivity|done].
Qed.

(** X11. A suite without the [expectations] key raises [KeyError].  One
    whose [expectations] value is no list raises [TypeError], unless it
    is the empty mapping or the empty string, which pass as an empty
    suite.  In each case no call is made and the counter is zero. *)
Theorem suite_without_list (d : list (string * pyval)) (st : loop_state V) :
  (lookup_key "expectations" d = None →
   apply_suite getattr call_method (PDict d) st = (Raise KeyError, reset st)) ∧
  (∀ v,
     lookup_key "expectations" d = Some v →
     (∀ l, v ≠ PList l) →
     apply_suite getattr call_method (PDict d) st =
     (match v with
      | PDict [] | PStr EmptyString => Ok 0
      | _ => Raise TypeError
      end, reset st)).
Proof.
  split.
  - intros Hkey. unfold apply_suite, mbind, M_bind, lift, set_count. simpl.
    by rewrite Hkey.
  - intros v Hkey Hlist.
    unfold apply_suite, mbind, M_bind, lift, set_count. simpl. rewrite Hkey.
    destruct v as [| | |s|l|items]; try done.
    + by destruct s.
    + by destruct (Hlist l).
    + by destruct items.
Qed.

End LoopFacts.

Lemma malformed_entry_raises_witness :
  apply_expectation sample_getattr sample_call (PStr "expect_column_to_exist")
                    (LoopState [] 0 []) = (Raise TypeError, LoopState [] 0 []) ∧
  apply_expectation sample_getattr sample_call
    (PDict [("expectation_type", PStr "expect_column_to_be_happy")])
    (LoopState [] 0 []) = (Raise KeyError, LoopState [] 0 []) ∧
  apply_expectation sample_getattr sample_call
    (PDict [("expectation_type", PInt 3); ("kwargs", PDict [])])
    (LoopState [] 0 []) = (Raise TypeError, LoopState [] 0 []).
Proof.
  destruct (malformed_entry_raises sample_getattr sample_call (LoopState [] 0 []))
    as (Hshape & Hkey & Htype).
  split; [|split].
  - by apply Hshape.
  - apply Hkey. by right.
  - by apply (Htype _ (PInt 3) (PDict [])).
Defined.

Lemma failing_entry_stops_loop_witness :
  apply_suite sample_getattr sample_call
    (PDict [("expectations",
             PList ([known_entry] ++ PDict [] :: [known_entry; unknown_entry]))])
    (LoopState [] 5 []) =
  (Raise KeyError,
   LoopState [("expect_column_to_exist", PDict [("column", PStr "customerID")])]
             1
             [("expect_column_to_exist", PDict [("column", PStr "customerID")])]).
Proof.
  by apply (failing_entry_stops_loop sample_getattr sample_call _
              [known_entry] [known_entry; unknown_entry] (PDict []) _
              (LoopState
                 [("expect_column_to_exist", PDict [("column", PStr "customerID")])]
                 1
                 [("expect_column_to_exist", PDict [("column", PStr "customerID")])])).
Defined.

Lemma apply_suite_counts_known_witness :
  ∃ st',
    apply_suite sample_getattr sample_call
      (PDict [("expectations", PList [unlisted_entry; known_entry; known_entry])])
      (LoopState [] 0 []) = (Ok 2, st') ∧
    calls st' =
    [("expect_column_to_exist", PDict [("column", PStr "customerID")]);
     ("expect_column_to_exist", PDict [("column", PStr "customerID")])].
Proof.
  apply (apply_suite_counts_known sample_getattr sample_call sample_known
           (PDict [("expectations", PList [unlisted_entry; known_entry; known_entry])])
           [unlisted_entry; known_entry; known_entry] (LoopState [] 0 [])).
  - reflexivity.
  - repeat constructor.
    + exists "check_column_exists", [("column", PStr "gender")].
      split; [reflexivity|]. split; [by intros v|done].
    + exists "expect_column_to_exist", [("column", PStr "customerID")].
      split; [reflexivity|]. split; [by intros v|by intros _ v].
    + exists "expect_column_to_exist", [("column", PStr "customerID")].
      split; [reflexivity|]. split; [by intros v|by intros _ v].
Defined.

Lemma suite_without_list_witness :
  apply_suite sample_getattr sample_call (PDict [("name", PStr "churn_suite")])
              (LoopState [] 4 []) = (Raise KeyError, LoopState [] 0 []) ∧
  apply_suite sample_getattr sample_call
    (PDict [("expectations", PDict [("expect_column_to_exist", PDict [])])])
    (LoopState [] 4 []) = (Raise TypeError, LoopState [] 0 []).
Proof.
  destruct (suite_without_list sample_getattr sample_call
              [("name", PStr "churn_suite")] (LoopState [] 4 [])) as [Hkey _].
  destruct (suite_without_list sample_getattr sample_call
              [("expectations", PDict [("expect_column_to_exist", PDict [])])]
              (LoopState [] 4 [])) as [_ Hlist].
  split; [by apply Hkey|]. by apply (Hlist _ eq_refl).
Defined.

End ExpectationExtra.

(** * Properties of the schema drift *)

Module DriftProofs.
Import Validator ValidatorProofs Contracts ValidatorExtra Drift Samples.

Lemma choice_elem {A} (seq : list A) e :
  seq ≠ [] →
  ∃ x, x ∈ seq ∧
       choice seq e = (Ok x, Env (draws e) (S (position e)) (stdout e)).
Proof.
  destruct seq as [|y rest]; [done|]. intros _.
  unfold choice, mbind, M_bind, randbelow.
  set (i := draws e (position e) mod List.length (y :: rest)).
  assert (i < List.length (y :: rest)) as Hi
    by (apply Nat.mod_upper_bound; simpl; lia).
  destruct (lookup_lt_is_Some_2 _ _ Hi) as [x Hx]. rewrite Hx.
  exists x. split; [by eapply list_elem_of_lookup_2|done].
Qed.

Lemma choice_bool e :
  ∃ b : bool,
    choice [true; false] e = (Ok b, Env (draws e) (S (position e)) (stdout e)).
Proof. destruct (choice_elem [true; false] e) as (b & _ & Hb); eauto. Qed.

Lemma drop_column_Ok c f :
  c ∈ labels f →
  drop_column c f =
  Ok (MkFrame (index_len f)
              (List.filter (λ x, negb (String.eqb x.1 c)) (columns f))).
Proof. intros Hc. unfold drop_column. by rewrite bool_decide_eq_true_2. Qed.

(** The run of [add_schema_drift] on any generator: whether a column was
    added, which one was removed, what was printed. *)
Lemma add_schema_drift_run f e :
  ∃ added removed out e',
    add_schema_drift f e = (Ok out, e') ∧
    stdout e' = stdout e ++ drift_log added removed ∧
    match removed with
    | None => out = with_new_column added f
    | Some c =>
        5 < List.length (labels (with_new_column added f)) ∧
        c ∈ labels (with_new_column added f) ∧
        drop_column c (with_new_column added f) = Ok out
    end.
Proof.
  assert (∀ mid e2,
    ∃ removed out e',
      (remove ← choice [true; false];
       if (remove : bool) && (5 <? List.length (labels mid)) then
         col_to_remove ← choice (labels mid);
         dropped ← lift (drop_column col_to_remove mid);
         print ("  - Removed column: " +:+ col_to_remove);;
         mret dropped
       else (mret mid : M env Frame)) e2 = (Ok out, e') ∧
      stdout e' = stdout e2 ++ drift_log false removed ∧
      match removed with
      | None => out = mid
      | Some c =>
          5 < List.length (labels mid) ∧ c ∈ labels mid ∧
          drop_column c mid = Ok out
      end) as Hsecond.
  { intros mid e2. unfold mbind, M_bind.
    destruct (choice_bool e2) as [remove ->].
    destruct (remove && (5 <? List.length (labels mid))) eqn:Hguard.
    - apply andb_prop in Hguard as [_ Hlen%Nat.ltb_lt].
      destruct (choice_elem (labels mid)
                  (Env (draws e2) (S (position e2)) (stdout e2)))
        as (c & Hc & ->).
      { intros Hnil. rewrite Hnil in Hlen. simpl in Hlen. lia. }
      unfold lift. rewrite (drop_column_Ok c mid Hc). simpl.
      exists (Some c). eexists _, _. split; [reflexivity|].
      split; [done|]. split; [done|]. split; [done|].
      by apply drop_column_Ok.
    - exists None. eexists _, _. split; [reflexivity|].
      split; [|done]. simpl. by rewrite app_nil_r. }
  unfold add_schema_drift, mbind at 1, M_bind at 1.
  destruct (choice_bool e) as [added ->]. unfold mbind at 1, M_bind at 1.
  destruct added; simpl.
  - destruct (Hsecond (assign_scalar "new_column" (Text "unexpected_value") f)
                (Env (draws e) (S (position e))
                     (stdout e ++ ["  - Added new column: new_column"])))
      as (removed & out & e' & Hrun & Hlog & Hout).
    exists true, removed, out, e'. split; [exact Hrun|].
    split; [|done]. rewrite Hlog. unfold drift_log. simpl.
    by rewrite <- app_assoc.
  - destruct (Hsecond f (Env (draws e) (S (position e)) (stdout e)))
      as (removed & out & e' & Hrun & Hlog & Hout).
    exists false, removed, out, e'. split; [exact Hrun|]. by split.
Qed.

Lemma labels_set_column l s cols :
  map fst (set_column l s cols) =
  if bool_decide (l ∈ map fst cols) then map fst cols else map fst cols ++ [l].
Proof.
  induction cols as [|[l' old] rest IH].
  - rewrite bool_decide_eq_false_2; [done|]. apply not_elem_of_nil.
  - cbn [set_column map fst]. destruct (String.eqb l' l) eqn:Heq.
    + apply String.eqb_eq in Heq as ->. simpl.
      rewrite bool_decide_eq_true_2; [done|]. left.
    + apply String.eqb_neq in Heq. simpl. rewrite IH.
      destruct (decide (l ∈ map fst rest)) as [Hin|Hin].
      * rewrite !bool_decide_eq_true_2; [done|by right|done].
      * rewrite !bool_decide_eq_false_2; [done| |done].
        intros [?|?]%elem_of_cons; congruence.
Qed.

Lemma labels_filter c (cols : list (string * Series)) :
  map fst (List.filter (λ x, negb (String.eqb x.1 c)) cols) =
  List.filter (λ l, negb (String.eqb l c)) (map fst cols).
Proof.
  induction cols as [|[l s] rest IH]; simpl; [done|].
  destruct (negb (String.eqb l c)); simpl; by rewrite IH.
Qed.

Lemma filter_out_fresh c (ls : list string) :
  c ∉ ls → List.filter (λ l, negb (String.eqb l c)) ls = ls.
Proof.
  induction ls as [|l rest IH]; simpl; [done|].
  intros [Hne Hrest]%not_elem_of_cons.
  assert (String.eqb l c = false) as -> by (apply String.eqb_neq; congruence).
  simpl. by rewrite IH.
Qed.

Lemma filter_out_length c (ls : list string) :
  NoDup ls → c ∈ ls →
  S (List.length (List.filter (λ l, negb (String.eqb l c)) ls)) = List.length ls.
Proof.
  induction ls as [|l rest IH]; simpl.
  - intros _ Hin. by apply not_elem_of_nil in Hin.
  - intros [Hfresh Hrest]%NoDup_cons Hin.
    destruct (String.eqb l c) eqn:Heq; simpl.
    + apply String.eqb_eq in Heq as ->. by rewrite filter_out_fresh.
    + apply String.eqb_neq in Heq.
      apply elem_of_cons in Hin as [?|Hin]; [congruence|].
      by rewrite IH.
Qed.

Lemma filter_out_NoDup c (ls : list string) :
  NoDup ls → NoDup (List.filter (λ l, negb (String.eqb l c)) ls).
Proof.
  induction ls as [|l rest IH]; simpl; [done|].
  intros [Hfresh Hrest]%NoDup_cons.
  destruct (negb (String.eqb l c)); [|by apply IH].
  apply NoDup_cons. split; [|by apply IH].
  intros [Hin _]%list_elem_of_In%filter_In. by apply Hfresh, list_elem_of_In.
Qed.

Lemma with_new_column_well_formed added f :
  well_formed f →
  well_formed (with_new_column added f) ∧
  index_len (with_new_column added f) = index_len f ∧
  List.length (labels f) ≤ List.length (labels (with_new_column added f)) ∧
  List.length (labels (with_new_column added f)) ≤ S (List.length (labels f)).
Proof.
  intros [Hdup Hlen]. destruct added; simpl; [|repeat split; done || lia].
  unfold well_formed, labels, assign_scalar. simpl.
  rewrite labels_set_column.
  split; [split|].
  - case_bool_decide as Hin; [done|]. apply NoDup_app.
    split; [done|]. split; [|apply NoDup_singleton].
    intros x Hx ->%list_elem_of_singleton. done.
  - generalize (replicate (index_len f) (Text "unexpected_value")),
      (length_replicate (index_len f) (Text "unexpected_value")).
    intros s Hs. induction Hlen as [|[l old] rest Hc Hrest IH]; simpl.
    + by constructor.
    + destruct (String.eqb l "new_column"); constructor; simpl in *; done.
  - split; [done|]. case_bool_decide; rewrite ?length_app; simpl; lia.
Qed.

(** X12. [add_schema_drift] never raises.  On a frame with unique labels
    and full columns it returns such a frame with the same number of
    rows, at most one column more and at most one column less. *)
Theorem add_schema_drift_well_formed (f : Frame) (e : env) :
  well_formed f →
  ∃ out e',
    add_schema_drift f e = (Ok out, e') ∧
    well_formed out ∧
    index_len out = index_len f ∧
    List.length (labels f) ≤ S (List.length (labels out)) ∧
    List.length (labels out) ≤ S (List.length (labels f)).
Proof.
  intros Hf.
  destruct (add_schema_drift_run f e) as (added & removed & out & e' & Hrun & _ & Hout).
  destruct (with_new_column_well_formed added f Hf)
    as ([Hdup Hlen] & Hindex & Hlo & Hhi).
  exists out, e'. split; [done|]. destruct removed as [c|].
  - destruct Hout as (_ & Hc & Hdrop). rewrite (drop_column_Ok _ _ Hc) in Hdrop.
    injection Hdrop as <-. unfold well_formed, labels in *. simpl.
    rewrite labels_filter.
    pose proof (filter_out_length c _ Hdup Hc) as Hcount.
    repeat split; [by apply filter_out_NoDup| |done|lia|lia].
    apply Forall_forall. intros x [Hx _]%list_elem_of_In%filter_In.
    rewrite Forall_forall in Hlen. by apply Hlen, list_elem_of_In.
  - subst out. repeat split; try done; lia.
Qed.

Lemma add_schema_drift_well_formed_witness :
  ∃ out e',
    add_schema_drift six_columns (always 0) = (Ok out, e') ∧
    well_formed out ∧
    index_len out = 2 ∧
    6 ≤ S (List.length (labels out)) ∧
    List.length (labels out) ≤ 7.
Proof.
  apply (add_schema_drift_well_formed six_columns (always 0)). split.
  - apply (bool_decide_unpack (NoDup _)). vm_compute. exact I.
  - repeat constructor.
Defined.

(** X13. A frame of at most four columns, or of five with [new_column]
    among them, never loses a column: the result is the frame itself or
    the frame with [new_column] set. *)
Theorem small_frame_keeps_columns (f : Frame) (e : env) :
  List.length (labels f) ≤ 4 ∨
  (List.length (labels f) = 5 ∧ "new_column" ∈ labels f) →
  ∃ added e', add_schema_drift f e = (Ok (with_new_column added f), e').
Proof.
  intros Hsmall.
  destruct (add_schema_drift_run f e)
    as (added & removed & out & e' & Hrun & _ & Hout).
  destruct removed as [c|]; [|subst out; eauto].
  destruct Hout as (Hlen & _). exfalso. revert Hlen.
  destruct added; simpl; [|lia].
  unfold labels, assign_scalar in *. simpl. rewrite labels_set_column.
  case_bool_decide as Hin; rewrite ?length_app; simpl; [lia|].
  destruct Hsmall as [?|[_ ?]]; [lia|done].
Qed.

Lemma small_frame_keeps_columns_witness :
  ∃ added e',
    add_schema_drift
      (MkFrame 1 [("customerID", [Text "7590-VHVEG"]); ("tenure", [Num 1])])
      (always 0) =
    (Ok (with_new_column added
           (MkFrame 1 [("customerID", [Text "7590-VHVEG"]); ("tenure", [Num 1])])),
     e').
Proof. apply small_frame_keeps_columns. left. simpl. lia. Defined.

Lemma as_dataframe_set_column l s cols :
  (list_to_map (set_column l s cols) : DataFrame) = <[l := s]> (list_to_map cols).
Proof.
  induction cols as [|[l' old] rest IH]; simpl; [done|].
  destruct (String.eqb l' l) eqn:Heq.
  - apply String.eqb_eq in Heq as ->. simpl. by rewrite insert_insert_eq.
  - apply String.eqb_neq in Heq. simpl. rewrite IH.
    by apply insert_insert_ne.
Qed.

Lemma as_dataframe_filter c (cols : list (string * Series)) :
  (list_to_map (List.filter (λ x, negb (String.eqb x.1 c)) cols) : DataFrame) =
  delete c (list_to_map cols).
Proof.
  induction cols as [|[l s] rest IH]; simpl; [by rewrite delete_empty|].
  destruct (String.eqb l c) eqn:Heq; simpl.
  - apply String.eqb_eq in Heq as ->. by rewrite IH, delete_insert_eq.
  - apply String.eqb_neq in Heq. rewrite IH.
    by rewrite delete_insert_ne by congruence.
Qed.

Lemma as_dataframe_labels f c : is_Some (as_dataframe f !! c) ↔ c ∈ labels f.
Proof.
  unfold as_dataframe, labels. induction (columns f) as [|[l s] rest IH]; simpl.
  - rewrite lookup_empty. split; [by intros [? ?]|].
    intros H. by apply not_elem_of_nil in H.
  - rewrite lookup_insert. case_decide as Heq.
    + subst. split; [intros _; left|eauto].
    + rewrite IH. split; [by right|].
      intros [?|?]%elem_of_cons; [congruence|done].
Qed.

(** X14. What [add_schema_drift] does to the data is what it prints: the
    frame returned is the one given with [new_column] set to the text in
    every row if the line for it was printed, and without the column
    named in the removal line if there is one; nothing else changes. *)
Theorem add_schema_drift_effect (f : Frame) (e : env) :
  ∃ added removed out e',
    add_schema_drift f e = (Ok out, e') ∧
    stdout e' = stdout e ++ drift_log added removed ∧
    as_dataframe (with_new_column added f) =
      (if added
       then <["new_column" :=
                replicate (index_len f) (Text "unexpected_value")]>
              (as_dataframe f)
       else as_dataframe f) ∧
    match removed with
    | Some c =>
        c ∈ labels (with_new_column added f) ∧
        as_dataframe out = delete c (as_dataframe (with_new_column added f))
    | None => out = with_new_column added f
    end.
Proof.
  destruct (add_schema_drift_run f e)
    as (added & removed & out & e' & Hrun & Hlog & Hout).
  exists added, removed, out, e'. split; [done|]. split; [done|]. split.
  - destruct added; [|done]. apply as_dataframe_set_column.
  - destruct removed as [c|]; [|done].
    destruct Hout as (_ & Hc & Hdrop). split; [done|].
    rewrite (drop_column_Ok _ _ Hc) in Hdrop. injection Hdrop as <-.
    apply as_dataframe_filter.
Qed.

(** A column that is still there, other than [new_column], is as it was. *)
Lemma drifted_lookup (f out : Frame) (e e' : env) (c : string) :
  add_schema_drift f e = (Ok out, e') →
  c ≠ "new_column" → c ∈ labels out →
  as_dataframe out !! c = as_dataframe f !! c.
Proof.
  intros Hrun Hc Hstill.
  destruct (add_schema_drift_run f e)
    as (added & removed & out' & e'' & Hrun' & _ & Hout).
  rewrite Hrun in Hrun'. injection Hrun' as <- <-.
  assert (as_dataframe (with_new_column added f) !! c = as_dataframe f !! c)
    as Hsame.
  { destruct added; [|done]. unfold as_dataframe, assign_scalar. simpl.
    rewrite as_dataframe_set_column. by rewrite lookup_insert_ne. }
  destruct removed as [c'|]; [|by subst out].
  destruct Hout as (_ & Hc' & Hdrop).
  rewrite (drop_column_Ok _ _ Hc') in Hdrop. injection Hdrop as <-.
  apply as_dataframe_labels in Hstill as [s Hs]. revert Hs.
  unfold as_dataframe at 1 2. simpl. rewrite as_dataframe_filter.
  destruct (decide (c' = c)) as [->|Hne].
  - by rewrite lookup_delete_eq.
  - intros _. by rewrite lookup_delete_ne.
Qed.

Lemma returns_agree (D1 D2 : DataFrame) C :
  (∀ item, item ∈ schema C → D1 !! item.1 = D2 !! item.1) →
  validate_schema_returns D1 C = validate_schema_returns D2 C.
Proof.
  intros Hsame. rewrite !validate_schema_returns_scan.
  destruct (loop_items C) as [items|err] eqn:Hitems; [|done].
  apply loop_items_schema in Hitems as ->.
  rewrite (scan_agree D1 D2); [done|].
  intros item Hin. by rewrite (Hsame item Hin).
Qed.

Lemma missing_contract_column_fails (D : DataFrame) C item :
  contract C = true → item ∈ schema C → D !! item.1 = None →
  validate_schema_returns D C ≠ Ok (true, []).
Proof.
  intros HC Hin Habsent. rewrite validate_schema_returns_contract by done.
  assert (item ∈ List.filter (violates D) (schema C)) as Hviol.
  { apply list_elem_of_In, filter_In. split; [by apply list_elem_of_In|].
    unfold violates. apply present_None in Habsent. by rewrite Habsent. }
  destruct (List.filter (violates D) (schema C)); [|done].
  by apply not_elem_of_nil in Hviol.
Qed.

(** X15. Schema drift and the validator: a frame that satisfies a
    contract which does not name [new_column] still satisfies it after
    [add_schema_drift] exactly when every contract column is still
    there, that is, when the column removed, if any, is none of the
    contract's. *)
Theorem drift_caught_iff_contract_column_removed
    (f out : Frame) (e e' : env) (C : pyval) :
  contract C = true →
  (∀ rules, ("new_column", rules) ∉ schema C) →
  validate_schema_returns (as_dataframe f) C = Ok (true, []) →
  add_schema_drift f e = (Ok out, e') →
  (validate_schema_returns (as_dataframe out) C = Ok (true, []) ↔
   ∀ c rules, (c, rules) ∈ schema C → c ∈ labels out).
Proof.
  intros HC Hnew Hclean Hrun. split.
  - intros Hout c rules Hin.
    destruct (decide (c ∈ labels out)) as [|Hgone]; [done|]. exfalso.
    apply (missing_contract_column_fails (as_dataframe out) C (c, rules));
      try done.
    simpl. destruct (as_dataframe out !! c) eqn:Hc; [|done].
    exfalso. apply Hgone, as_dataframe_labels. by rewrite Hc.
  - intros Hkept. rewrite <- Hclean. apply returns_agree.
    intros [c rules] Hin. simpl.
    assert (c ≠ "new_column") as Hc by (intros ->; by apply (Hnew rules)).
    eapply drifted_lookup; [exact Hrun|done|by eapply Hkept].
Qed.

Lemma drift_caught_iff_contract_column_removed_witness :
  validate_schema_returns
    (as_dataframe
       (MkFrame 2
          [("customerID", [Text "7590-VHVEG"; Text "5575-GNVDE"]);
           ("gender", [Text "Female"; Text "Male"]);
           ("Contract", [Text "Month-to-month"; Text "One year"]);
           ("TotalCharges", [Num 29; Num 1889]);
           ("Churn", [Text "No"; Text "No"])]))
    churn_contract = Ok (true, []) ↔
  ∀ c rules, (c, rules) ∈ schema churn_contract →
    c ∈ ["customerID"; "gender"; "Contract"; "TotalCharges"; "Churn"].
Proof.
  apply (drift_caught_iff_contract_column_removed six_columns
           (MkFrame 2
              [("customerID", [Text "7590-VHVEG"; Text "5575-GNVDE"]);
               ("gender", [Text "Female"; Text "Male"]);
               ("Contract", [Text "Month-to-month"; Text "One year"]);
               ("TotalCharges", [Num 29; Num 1889]);
               ("Churn", [Text "No"; Text "No"])])
           drop_third
           (Env (draws drop_third) 3 ["  - Removed column: tenure"])
           churn_contract).
  - reflexivity.
  - intros rules Hin. simpl in Hin.
    repeat (apply elem_of_cons in Hin as [[=]|Hin]).
    by apply not_elem_of_nil in Hin.
  - reflexivity.
  - reflexivity.
Defined.

End DriftProofs.
